(** * A shallow embedding of the completion engine

  The prediction pipeline of the CLI autocomplete tool: the tokenizer and
  the context extractor ([core/utils.py]), the shlex-based context parser
  ([core/context_parser.py]), the cache layer ([core/cache_manager.py]) and
  the rule-based predictor ([core/predictor.py]).

  Modelling conventions.
  - A Python [str] is a [string]; its characters are the code points
    0..255, so [isspace] and [lower] below are Python's on that range.
  - Python integers are [Z]; loop counters that range over indices are [nat].
  - A Python [dict] is an association list in insertion order with distinct
    keys: insertion order is observable here (the stable sort of the
    eviction, [list(COMMANDS.keys())]).
  - An exception ([IndexError], [ValueError]) is [None] in an [option].
  - [time.time()] is an explicit argument, one per call in the source. *)

From Stdlib Require Import ZArith List String Ascii Bool Arith Lia Permutation Sorted.
Import ListNotations.

Open Scope string_scope.
Open Scope list_scope.
Open Scope nat_scope.

(** ** Python built-ins used by the sources *)
Module Py.

Definition code (c : ascii) : nat := nat_of_ascii c.

(** [str.isspace] on one character. *)
Definition isspace (c : ascii) : bool :=
  let n := code c in
  ((9 <=? n) && (n <=? 13)) || ((28 <=? n) && (n <=? 32))
  || (n =? 133) || (n =? 160).

(** [str.lower] on one character, then on a string. *)
Definition lower_char (c : ascii) : ascii :=
  let n := code c in
  if ((65 <=? n) && (n <=? 90))
     || ((192 <=? n) && (n <=? 222) && negb (n =? 215))
  then ascii_of_nat (n + 32) else c.

Fixpoint lower (s : string) : string :=
  match s with
  | EmptyString => EmptyString
  | String c r => String (lower_char c) (lower r)
  end.

(** Truth value of a string: [if s:]. *)
Definition truthy (s : string) : bool :=
  match s with EmptyString => false | String _ _ => true end.

(** [s.startswith(p)]. *)
Definition startswith (s p : string) : bool := prefix p s.

(** [s.endswith(p)]. *)
Definition endswith (s p : string) : bool :=
  (length p <=? length s)
  && (substring (length s - length p) (length p) s =? p)%string.

(** [s[a:b]] for [0 <= a] and [0 <= b]. *)
Definition slice (a b : nat) (s : string) : string := substring a (b - a) s.

(** [s[:c]] for any integer [c]: a negative bound counts from the end. *)
Definition slice_to (c : Z) (s : string) : string :=
  if (c <? 0)%Z
  then substring 0 (Z.to_nat (Z.of_nat (length s) + c)) s
  else substring 0 (Z.to_nat c) s.

(** [l[start:]] for any integer [start]. *)
Definition list_slice_from {A} (start : Z) (l : list A) : list A :=
  if (start <? 0)%Z
  then skipn (Z.to_nat (Z.of_nat (List.length l) + start)) l
  else skipn (Z.to_nat start) l.

(** [sep.join(parts)]. *)
Definition join (sep : string) (parts : list string) : string :=
  concat sep parts.

(** [s.split()]: the maximal runs of non-whitespace characters. *)
Fixpoint split_ws (s : string) (cur : string) : list string :=
  match s with
  | EmptyString => if truthy cur then [cur] else []
  | String c r =>
      if isspace c
      then (if truthy cur then [cur] else []) ++ split_ws r ""
      else split_ws r (cur ++ String c "")
  end.

Definition split (s : string) : list string := split_ws s "".

Definition dquote : ascii := "034"%char.
Definition squote : ascii := "039"%char.
Definition backslash : ascii := "092"%char.

(** *** Dictionaries: association lists in insertion order *)
Definition dict (V : Type) : Type := list (string * V).

Fixpoint dict_get {V} (d : dict V) (k : string) : option V :=
  match d with
  | [] => None
  | (k', v) :: r => if (k' =? k)%string then Some v else dict_get r k
  end.

(** [k in d]. *)
Definition dict_contains {V} (d : dict V) (k : string) : bool :=
  match dict_get d k with Some _ => true | None => false end.

(** [d.get(k, default)]. *)
Definition dict_get_default {V} (d : dict V) (k : string) (default : V) : V :=
  match dict_get d k with Some v => v | None => default end.

(** [d[k] = v]: an existing key keeps its place, a new one goes last. *)
Fixpoint dict_set {V} (d : dict V) (k : string) (v : V) : dict V :=
  match d with
  | [] => [(k, v)]
  | (k', v') :: r =>
      if (k' =? k)%string then (k', v) :: r else (k', v') :: dict_set r k v
  end.

(** [del d[k]]. *)
Fixpoint dict_del {V} (d : dict V) (k : string) : dict V :=
  match d with
  | [] => []
  | (k', v') :: r => if (k' =? k)%string then r else (k', v') :: dict_del r k
  end.

Definition dict_keys {V} (d : dict V) : list string := map fst d.

(** [dict(items)]. *)
Definition dict_of_items {V} (items : list (string * V)) : dict V :=
  fold_left (fun d kv => dict_set d (fst kv) (snd kv)) items [].

(** [sorted(items, key=key)]: stable, ascending. *)
Fixpoint insert_sorted {A} (key : A -> Z) (x : A) (l : list A) : list A :=
  match l with
  | [] => [x]
  | y :: r => if (key x <=? key y)%Z then x :: y :: r
              else y :: insert_sorted key x r
  end.

Fixpoint sorted {A} (key : A -> Z) (l : list A) : list A :=
  match l with
  | [] => []
  | x :: r => insert_sorted key x (sorted key r)
  end.

(** [x.get(field, default)] on an optional field. *)
Definition get_or {A} (default : A) (x : option A) : A :=
  match x with Some a => a | None => default end.

End Py.

(** ** core/utils.py *)
Module Utils.
Import Py.

(** The loop body of [tokenize_command_line], one character at a time; the
    accumulators are the locals [tokens], [current_token], [in_quotes] and
    [quote_char] of the source. *)
Fixpoint tokenize_loop (line : string) (tokens : list string)
         (current_token : string) (in_quotes : bool)
         (quote_char : option ascii) : list string :=
  match line with
  | EmptyString =>
      if truthy current_token then tokens ++ [current_token] else tokens
  | String char rest =>
      if (char =? dquote)%char || (char =? squote)%char then
        if negb in_quotes then
          tokenize_loop rest tokens current_token true (Some char)
        else if match quote_char with
                | Some q => (char =? q)%char
                | None => false
                end then
          tokenize_loop rest tokens current_token false None
        else
          tokenize_loop rest tokens (current_token ++ String char "")
                        in_quotes quote_char
      else if isspace char && negb in_quotes then
        if truthy current_token then
          tokenize_loop rest (tokens ++ [current_token]) "" in_quotes quote_char
        else
          tokenize_loop rest tokens current_token in_quotes quote_char
      else
        tokenize_loop rest tokens (current_token ++ String char "")
                      in_quotes quote_char
  end.

Definition tokenize_command_line (line : string) : list string :=
  if negb (truthy line) then [] else tokenize_loop line [] "" false None.

(** The context dictionary.  [tokens] is absent from the dictionary of the
    degenerate case; [current_word] is read with default [''] everywhere. *)
Record Context := mkContext {
  command : option string;
  subcommand : option string;
  args : list string;
  current_word : string;
  word_start : Z;
  word_end : Z;
  tokens : option (list string)
}.

Definition empty_context : Context :=
  {| command := None; subcommand := None; args := []; current_word := "";
     word_start := 0; word_end := 0; tokens := None |}.

(** [for i in range(cursor_pos - 1, -1, -1)]: [n] is [i + 1], the number of
    indices still to visit; [ws] is the current value of [word_start].
    [line[i]] out of range raises. *)
Fixpoint find_word_start (line : string) (n : nat) (ws : nat) : option nat :=
  match n with
  | O => Some ws
  | S i =>
      match get i line with
      | None => None
      | Some ch => if isspace ch then Some (i + 1) else find_word_start line i i
      end
  end.

(** [for i in range(cursor_pos, len(line))]: [k] indices remain from [i];
    [we] is the current value of [word_end]. *)
Fixpoint find_word_end (line : string) (k : nat) (i : nat) (we : nat)
  : option nat :=
  match k with
  | O => Some we
  | S k' =>
      match get i line with
      | None => None
      | Some ch => if isspace ch then Some i else find_word_end line k' (S i) (S i)
      end
  end.

Definition extract_command_context (line : string) (cursor_pos : Z)
  : option Context :=
  if negb (truthy line) || (cursor_pos <? 0)%Z then Some empty_context
  else
    let c := Z.to_nat cursor_pos in
    let partial_line := slice_to cursor_pos line in
    let toks := tokenize_command_line partial_line in
    match find_word_start line c c with
    | None => None
    | Some ws =>
        match find_word_end line (length line - c) c c with
        | None => None
        | Some we =>
            let cw := slice ws we line in
            let cw' :=
              if (c =? length line) && truthy cw && negb (endswith cw " ")
              then
                if (0 <? c)
                then match get (c - 1) line with
                     | None => None
                     | Some ch => Some (if negb (isspace ch) then "" else cw)
                     end
                else Some cw
              else Some cw in
            match cw' with
            | None => None
            | Some cur =>
                Some {| command := nth_error toks 0;
                        subcommand := nth_error toks 1;
                        args := skipn 2 toks;
                        current_word := cur;
                        word_start := Z.of_nat ws;
                        word_end := Z.of_nat we;
                        tokens := Some toks |}
            end
        end
    end.

(** [filter_suggestions]. *)
Definition filter_suggestions (suggestions : list string) (cw : string)
  : list string :=
  if negb (truthy cw) then suggestions
  else
    let current_lower := lower cw in
    List.filter (fun s => startswith (lower s) current_lower) suggestions.

(** The three buckets of [rank_suggestions], filled in one pass. *)
Fixpoint rank_buckets (suggestions : list string) (cw : string)
         (exact pref other : list string)
  : list string * list string * list string :=
  match suggestions with
  | [] => (exact, pref, other)
  | s :: rest =>
      let sl := lower s in
      if (sl =? cw)%string then rank_buckets rest cw (exact ++ [s]) pref other
      else if startswith sl cw then rank_buckets rest cw exact (pref ++ [s]) other
      else rank_buckets rest cw exact pref (other ++ [s])
  end.

Definition rank_suggestions (suggestions : list string) (context : Context)
  : list string :=
  match suggestions with
  | [] => []
  | _ =>
      let cw := lower (current_word context) in
      let '(exact, pref, other) := rank_buckets suggestions cw [] [] [] in
      exact ++ pref ++ other
  end.

(** [create_cache_key]: [x or ''] maps both [None] and [''] to ['']. *)
Definition or_empty (x : option string) : string :=
  match x with
  | Some s => s
  | None => ""
  end.

Definition create_cache_key (context : Context) : string :=
  let key_parts :=
    [or_empty (command context); or_empty (subcommand context)]
      ++ args context in
  join "|" key_parts.

End Utils.

(** ** core/cache_manager.py *)
Module Cache.
Import Py.

(** A cache entry, as written by [set] or as read back from the JSON file:
    every field is read with [entry.get(field, default)]. *)
Record Entry := mkEntry {
  suggestions : option (list string);
  created : option Z;
  last_used : option Z;
  hit_count : option Z;
  ttl : option Z
}.

(** The manager: [max_size], the in-memory [cache], and the backing store,
    that is the parsed content of [cache_file] ([None]: no file yet) with
    whether writing it succeeds. *)
Record CacheManager := mkCacheManager {
  max_size : Z;
  cache : dict Entry;
  cache_file : option (dict Entry);
  writable : bool
}.

Definition with_cache (m : CacheManager) (c : dict Entry) : CacheManager :=
  {| max_size := max_size m; cache := c;
     cache_file := cache_file m; writable := writable m |}.

(** [_load_cache]: a missing or unreadable file gives the empty cache. *)
Definition _load_cache (m : CacheManager) : CacheManager :=
  with_cache m (get_or [] (cache_file m)).

(** [__init__]. *)
Definition init (file : option (dict Entry)) (can_write : bool) (max : Z)
  : CacheManager :=
  _load_cache {| max_size := max; cache := [];
                 cache_file := file; writable := can_write |}.

(** [_save_cache]: an [IOError] is swallowed. *)
Definition _save_cache (m : CacheManager) : CacheManager :=
  if writable m
  then {| max_size := max_size m; cache := cache m;
          cache_file := Some (cache m); writable := writable m |}
  else m.

Definition last_used_key (item : string * Entry) : Z :=
  get_or 0%Z (last_used (snd item)).

(** [_cleanup_cache]. *)
Definition _cleanup_cache (m : CacheManager) : CacheManager :=
  if (max_size m <? Z.of_nat (List.length (cache m)))%Z then
    let sorted_items := sorted last_used_key (cache m) in
    with_cache m (dict_of_items (list_slice_from (- max_size m) sorted_items))
  else m.

(** [get]: the hit mutates the entry object held by the dictionary. *)
Definition get (now : Z) (key : string) (m : CacheManager)
  : option (list string) * CacheManager :=
  match dict_get (cache m) key with
  | Some entry =>
      let entry' :=
        {| suggestions := suggestions entry;
           created := created entry;
           last_used := Some now;
           hit_count := Some (get_or 0 (hit_count entry) + 1)%Z;
           ttl := ttl entry |} in
      (Some (get_or [] (suggestions entry)),
       with_cache m (dict_set (cache m) key entry'))
  | None => (None, m)
  end.

(** [set]: [t_created] and [t_last_used] are its two clock readings. *)
Definition set (t_created t_last_used : Z) (key : string)
           (suggs : list string) (ttl_ : Z) (m : CacheManager)
  : CacheManager :=
  let entry :=
    {| suggestions := Some suggs; created := Some t_created;
       last_used := Some t_last_used; hit_count := Some 0%Z;
       ttl := Some ttl_ |} in
  _save_cache (_cleanup_cache (with_cache m (dict_set (cache m) key entry))).

Definition invalidate (key : string) (m : CacheManager) : CacheManager :=
  if dict_contains (cache m) key
  then _save_cache (with_cache m (dict_del (cache m) key))
  else m.

Definition clear (m : CacheManager) : CacheManager :=
  _save_cache (with_cache m []).

(** The test of [cleanup_expired] on one entry. *)
Definition expired (current_time : Z) (entry : Entry) : bool :=
  (get_or 3600 (ttl entry) <? current_time - get_or 0 (created entry))%Z.

Definition cleanup_expired (current_time : Z) (m : CacheManager)
  : CacheManager :=
  let expired_keys :=
    dict_keys (List.filter (fun kv => expired current_time (snd kv)) (cache m)) in
  let m' := with_cache m (fold_left (fun d k => dict_del d k) expired_keys (cache m)) in
  match expired_keys with
  | [] => m'
  | _ => _save_cache m'
  end.

(** [get_stats]: the dictionary it returns. *)
Record Stats := mkStats {
  total_entries : Z;
  total_hits : Z;
  cache_size : Z;
  stats_max_size : Z
}.

(** [sum(entry.get('hit_count', 0) for entry in self.cache.values())]. *)
Definition sum_hits (d : dict Entry) : Z :=
  fold_right (fun kv acc => (get_or 0 (hit_count (snd kv)) + acc)%Z) 0%Z d.

Definition get_stats (m : CacheManager) : Stats :=
  let n := Z.of_nat (List.length (cache m)) in
  {| total_entries := n; total_hits := sum_hits (cache m);
     cache_size := n; stats_max_size := max_size m |}.

End Cache.

(** ** core/predictor.py *)
Module Predictor.
Import Py Utils.

(** One entry of [COMMANDS]. *)
Record CmdData := mkCmdData {
  subcommands : list string;
  flags : dict (list string)
}.

Definition COMMANDS : dict CmdData :=
  [ ("git",
     {| subcommands := ["add"; "commit"; "push"; "pull"; "status"; "checkout";
                        "branch"; "merge"; "log"; "diff"];
        flags :=
          [ ("add", ["-A"; "--all"; "-p"; "--patch"; "-u"; "--update"]);
            ("commit", ["-m"; "--message"; "--amend"; "--signoff"; "-a"; "--all"]);
            ("push", ["-u"; "--set-upstream"; "--force"; "-f"; "--delete"]);
            ("pull", ["--rebase"; "--ff-only"; "--no-ff"]);
            ("status", ["-s"; "--short"; "-b"; "--branch"; "--porcelain"]);
            ("checkout", ["-b"; "--branch"; "-f"; "--force"; "--track"]);
            ("branch", ["-d"; "--delete"; "-m"; "--move"; "-r"; "--remote"]);
            ("log", ["--oneline"; "--graph"; "--decorate"; "-n"; "--max-count"]);
            ("diff", ["--cached"; "--staged"; "-w"; "--ignore-all-space"]) ] |});
    ("docker",
     {| subcommands := ["run"; "build"; "pull"; "push"; "exec"; "ps"; "images";
                        "logs"; "stop"; "rm"];
        flags :=
          [ ("run", ["-d"; "--detach"; "--rm"; "-it"; "--interactive"; "--tty";
                     "-p"; "--publish"]);
            ("build", ["-t"; "--tag"; "-f"; "--file"; "--no-cache"; "--pull"]);
            ("pull", ["-a"; "--all-tags"; "--platform"]);
            ("push", ["-a"; "--all-tags"]);
            ("exec", ["-it"; "--interactive"; "--tty"; "-u"; "--user"]);
            ("ps", ["-a"; "--all"; "-q"; "--quiet"; "--format"]);
            ("images", ["-a"; "--all"; "-q"; "--quiet"; "--filter"]);
            ("logs", ["-f"; "--follow"; "-t"; "--timestamps"; "--tail"]);
            ("stop", ["-t"; "--time"]);
            ("rm", ["-f"; "--force"; "-v"; "--volumes"]) ] |});
    ("ls",
     {| subcommands := [];
        flags := [ ("", ["-l"; "--long"; "-a"; "--all"; "-h"; "--human-readable";
                         "--color"; "-R"; "--recursive"]) ] |});
    ("cd",
     {| subcommands := [];
        flags := [ ("", ["-"; "-L"; "-P"]) ] |});
    ("cp",
     {| subcommands := [];
        flags := [ ("", ["-r"; "--recursive"; "-v"; "--verbose"; "-f"; "--force";
                         "-i"; "--interactive"]) ] |});
    ("mv",
     {| subcommands := [];
        flags := [ ("", ["-v"; "--verbose"; "-f"; "--force"; "-i"; "--interactive";
                         "-n"; "--no-clobber"]) ] |});
    ("rm",
     {| subcommands := [];
        flags := [ ("", ["-r"; "--recursive"; "-f"; "--force"; "-i"; "--interactive";
                         "-v"; "--verbose"]) ] |}) ].

(** The process state the predictor works on: the module-level table
    [COMMANDS], which the predictor extends in place, and the global cache
    manager. *)
Record World := mkWorld {
  w_commands : dict CmdData;
  w_cache : Cache.CacheManager
}.

(** [for matching_subcmd in suggestions: suggestions.extend(...)]: the list
    iterated over is the list being extended, so the iterator (index [i])
    also visits what the loop appended.  [None]: out of fuel. *)
Fixpoint extend_loop (fuel : nat) (fl : dict (list string)) (i : nat)
         (suggs : list string) : option (list string) :=
  match fuel with
  | O => None
  | S fuel' =>
      match nth_error suggs i with
      | None => Some suggs
      | Some matching_subcmd =>
          extend_loop fuel' fl (S i)
                      (suggs ++ dict_get_default fl matching_subcmd [])
      end
  end.

(** Lines 94 to 124 of [predict_rule_based]: the candidate list before
    filtering, with the table as the in-place [extend]s leave it.  Where
    [suggestions] is bound to a list of the table ([cmd_data["subcommands"]],
    [flags[subcmd]]) the [extend] changes the table; a list comprehension or
    a [get] default is a fresh list. *)
Definition candidates (fuel : nat) (table : dict CmdData)
           (cmd subcmd : option string)
  : option (list string * dict CmdData) :=
  match cmd with
  | None => Some (dict_keys table, table)
  | Some c =>
      match dict_get table c with
      | None => Some ([], table)
      | Some cmd_data =>
          let global := dict_get_default (flags cmd_data) "" [] in
          match subcmd with
          | None =>
              let suggs := subcommands cmd_data ++ global in
              Some (suggs,
                    dict_set table c {| subcommands := suggs;
                                        flags := flags cmd_data |})
          | Some sc =>
              let matching_subcommands :=
                List.filter (fun s => startswith s sc) (subcommands cmd_data) in
              match matching_subcommands with
              | _ :: _ =>
                  match extend_loop fuel (flags cmd_data) 0 matching_subcommands with
                  | None => None
                  | Some suggs => Some (suggs ++ global, table)
                  end
              | [] =>
                  match dict_get (flags cmd_data) sc with
                  | Some registered =>
                      let suggs := registered ++ global in
                      Some (suggs,
                            dict_set table c
                              {| subcommands := subcommands cmd_data;
                                 flags := dict_set (flags cmd_data) sc suggs |})
                  | None => Some ([] ++ global, table)
                  end
              end
          end
      end
  end.

(** [predict_rule_based]; [t_get] is the clock reading of the cache lookup,
    [t_created] and [t_last_used] those of the cache store. *)
Definition predict_rule_based (fuel : nat) (t_get t_created t_last_used : Z)
           (context : Context) (w : World)
  : option (list string * World) :=
  let cache_key := create_cache_key context in
  let '(cached_suggestions, cm) := Cache.get t_get cache_key (w_cache w) in
  match cached_suggestions with
  | Some cached => Some (cached, {| w_commands := w_commands w; w_cache := cm |})
  | None =>
      match candidates fuel (w_commands w) (command context) (subcommand context) with
      | None => None
      | Some (suggs, table) =>
          let suggs :=
            if truthy (current_word context)
            then filter_suggestions suggs (current_word context)
            else suggs in
          let suggs := rank_suggestions suggs context in
          let cm := Cache.set t_created t_last_used cache_key suggs 3600 cm in
          Some (suggs, {| w_commands := table; w_cache := cm |})
      end
  end.

(** [predict_with_context]. *)
Definition predict_with_context (fuel : nat) (t_get t_created t_last_used : Z)
           (cli_line : string) (cursor_pos : Z) (w : World)
  : option (list string * World) :=
  match extract_command_context cli_line cursor_pos with
  | None => None
  | Some context =>
      predict_rule_based fuel t_get t_created t_last_used context w
  end.

(** A fresh process: the pristine table and a manager with the default
    maximum over a given backing store. *)
Definition fresh_world (file : option (dict Cache.Entry)) (can_write : bool)
  : World :=
  {| w_commands := COMMANDS; w_cache := Cache.init file can_write 1000 |}.

End Predictor.

(** ** [shlex.split] of the Python standard library

  [shlex.split(s)] runs the lexer in POSIX mode with [whitespace_split] set
  and no comment characters.  One pass over the characters replaces the
  repeated [read_token] calls: [acc] collects the tokens returned so far,
  [token] and [quoted] are the lexer's, and the lexer state is one of
  [' '], ['a'], an opening quote, or the escape character together with the
  state to return to. *)
Module Shlex.
Import Py.

Inductive state : Type :=
| Blank                          (* state [' '] *)
| Word                           (* state ['a'] *)
| Quoted (q : ascii)             (* state is the quote [q] *)
| Escaped (back : option ascii). (* state is the escape; [escapedstate] is
                                    ['a'] ([None]) or a quote *)

(** [nextchar in self.whitespace]: space, tab, carriage return, newline. *)
Definition whitespace (c : ascii) : bool :=
  let n := code c in (n =? 32) || (n =? 9) || (n =? 13) || (n =? 10).

Definition quotes (c : ascii) : bool :=
  (c =? squote)%char || (c =? dquote)%char.

Definition escape (c : ascii) : bool := (c =? backslash)%char.

(** Only the double quote lets the escape character work inside it. *)
Definition escapedquotes (c : ascii) : bool := (c =? dquote)%char.

Fixpoint read (s : string) (st : state) (token : string) (quoted : bool)
         (acc : list string) : option (list string) :=
  match s with
  | EmptyString =>
      match st with
      | Blank => Some acc
      | Word => if negb quoted && negb (truthy token)
                then Some acc else Some (acc ++ [token])
      | Quoted _ => None          (* ValueError: No closing quotation *)
      | Escaped _ => None         (* ValueError: No escaped character *)
      end
  | String c r =>
      match st with
      | Blank =>
          if whitespace c then read r Blank token quoted acc
          else if escape c then read r (Escaped None) token quoted acc
          else if quotes c then read r (Quoted c) token true acc
          else read r Word (String c "") quoted acc
      | Quoted q =>
          if (c =? q)%char then read r Word token true acc
          else if escape c && escapedquotes q
          then read r (Escaped (Some q)) token true acc
          else read r (Quoted q) (token ++ String c "") true acc
      | Escaped back =>
          let token :=
            match back with
            | Some q =>
                if negb (c =? backslash)%char && negb (c =? q)%char
                then (token ++ String backslash "")%string else token
            | None => token
            end in
          read r (match back with Some q => Quoted q | None => Word end)
               (token ++ String c "") quoted acc
      | Word =>
          if whitespace c then
            if truthy token || quoted then read r Blank "" false (acc ++ [token])
            else read r Blank token quoted acc
          else if quotes c then read r (Quoted c) token true acc
          else if escape c then read r (Escaped None) token quoted acc
          else read r Word (token ++ String c "") quoted acc
      end
  end.

Definition split (s : string) : option (list string) :=
  read s Blank "" false [].

End Shlex.

(** ** core/context_parser.py *)
Module ContextParser.
Import Py.

(** [s.strip()], as [lstrip] after [rstrip]. *)
Fixpoint lstrip (s : string) : string :=
  match s with
  | EmptyString => EmptyString
  | String c r => if isspace c then lstrip r else s
  end.

Fixpoint rstrip (s : string) : string :=
  match s with
  | EmptyString => EmptyString
  | String c r =>
      match rstrip r with
      | EmptyString => if isspace c then EmptyString else String c EmptyString
      | r' => String c r'
      end
  end.

Definition strip (s : string) : string := lstrip (rstrip s).

(** The dictionary [parse_context] returns. *)
Record Parsed := mkParsed {
  command : option string;
  subcommand : option string;
  args : list string
}.

Definition parse_context (cli_line : string) (cursor_pos : Z) : Parsed :=
  let partial_line := slice_to cursor_pos cli_line in
  let tokens :=
    match Shlex.split partial_line with
    | Some toks => toks
    | None => Py.split (strip partial_line)
    end in
  match tokens with
  | [] => {| command := None; subcommand := None; args := [] |}
  | _ =>
      {| command := nth_error tokens 0;
         subcommand := nth_error tokens 1;
         args := skipn 2 tokens |}
  end.

End ContextParser.

(** ** core/utils.py: the functions beside the pipeline *)
Module UtilsRest.
Import Py.

(** [re.sub(r'^sudo\s+', '', s)]: the pattern is anchored at the start, so
    it matches at most once; [\s+] takes the whole run of whitespace. *)
Definition drop_sudo (s : string) : string :=
  if prefix "sudo" s then
    match substring 4 (length s - 4) s with
    | String c r => if isspace c then ContextParser.lstrip (String c r) else s
    | EmptyString => s
    end
  else s.

(** [re.sub(r'\s+', ' ', s)]: [in_run] tells that the previous character
    was part of the run being replaced. *)
Fixpoint collapse_ws (s : string) (in_run : bool) : string :=
  match s with
  | EmptyString => EmptyString
  | String c r =>
      if isspace c then
        if in_run then collapse_ws r true
        else String " " (collapse_ws r true)
      else String c (collapse_ws r false)
  end.

Definition normalize_command (command : string) : string :=
  if negb (truthy command) then ""
  else
    let normalized := ContextParser.strip (lower command) in
    let normalized := drop_sudo normalized in
    collapse_ws normalized false.

(** The class [[\x00-\x1f\x7f]]. *)
Definition is_control (c : ascii) : bool :=
  (code c <=? 31) || (code c =? 127).

(** [re.sub(r'[\x00-\x1f\x7f]', '', s)]. *)
Fixpoint remove_controls (s : string) : string :=
  match s with
  | EmptyString => EmptyString
  | String c r =>
      if is_control c then remove_controls r else String c (remove_controls r)
  end.

(** [s.replace(old, new)] for a one-character [old]. *)
Fixpoint replace_char (old : ascii) (new : string) (s : string) : string :=
  match s with
  | EmptyString => EmptyString
  | String c r =>
      if (c =? old)%char then (new ++ replace_char old new r)%string
      else String c (replace_char old new r)
  end.

Definition sanitize_suggestion (suggestion : string) : string :=
  if negb (truthy suggestion) then ""
  else
    let sanitized := remove_controls suggestion in
    let sanitized :=
      replace_char backslash (String backslash (String backslash "")) sanitized in
    let sanitized :=
      replace_char dquote (String backslash (String dquote "")) sanitized in
    replace_char squote (String backslash (String squote "")) sanitized.

(** [string.ascii_letters + string.digits + "_-"]. *)
Definition valid_chars : string :=
  "abcdefghijklmnopqrstuvwxyzABCDEFGHIJKLMNOPQRSTUVWXYZ0123456789_-".

(** [c in s] for a character [c] of a string [s]. *)
Fixpoint char_in (c : ascii) (s : string) : bool :=
  match s with
  | EmptyString => false
  | String a r => (c =? a)%char || char_in c r
  end.

(** [all(p(c) for c in s)]. *)
Fixpoint all_of (p : ascii -> bool) (s : string) : bool :=
  match s with
  | EmptyString => true
  | String c r => p c && all_of p r
  end.

Definition is_valid_command (command : string) : bool :=
  if negb (truthy command) then false
  else all_of (fun c => char_in c valid_chars) command.

Definition help_texts : dict (dict string) :=
  [ ("git",
     [ ("add", "Add file contents to the index");
       ("commit", "Record changes to the repository");
       ("push", "Update remote refs along with associated objects");
       ("pull", "Fetch from and integrate with another repository");
       ("status", "Show the working tree status");
       ("checkout", "Switch branches or restore working tree files") ]);
    ("docker",
     [ ("run", "Run a command in a new container");
       ("build", "Build an image from a Dockerfile");
       ("pull", "Pull an image or a repository from a registry");
       ("push", "Push an image or a repository to a registry");
       ("exec", "Run a command in a running container");
       ("ps", "List containers") ]) ].

Definition get_command_help (command : string) (subcommand : option string)
  : option string :=
  match dict_get help_texts command, subcommand with
  | Some texts, Some sub => if truthy sub then dict_get texts sub else None
  | _, _ => None
  end.

End UtilsRest.

(** ** core/completion_formatter.py *)
Module Formatter.
Import Py.

Definition newline : ascii := "010"%char.
Definition tab : ascii := "009"%char.

Definition _format_bash (suggestions : list string) : string :=
  join (String newline "") suggestions.

Definition _format_zsh (suggestions : list string) : string :=
  join (String newline "") suggestions.

Definition _format_fish (suggestions : list string) : string :=
  join (String tab "") suggestions.

(** [CompletionFormatter(shell_type).format_suggestions(suggestions, context)];
    the context is not read. *)
Definition format_suggestions (shell_type : string) (suggestions : list string)
  : string :=
  match suggestions with
  | [] => ""
  | _ =>
      if (shell_type =? "bash")%string then _format_bash suggestions
      else if (shell_type =? "zsh")%string then _format_zsh suggestions
      else if (shell_type =? "fish")%string then _format_fish suggestions
      else _format_bash suggestions
  end.

(** A suggestion with a description: a dictionary read with
    [get('text', '')] and [get('description', '')]. *)
Record Described := mkDescribed {
  text : option string;
  description : option string
}.

Definition format_with_descriptions (shell_type : string)
           (suggestions : list Described) : string :=
  if (shell_type =? "fish")%string then
    join (String newline "")
         (map (fun sg =>
                 let t := get_or "" (text sg) in
                 let desc := get_or "" (description sg) in
                 if truthy desc then (t ++ String tab desc)%string else t)
              suggestions)
  else
    join (String newline "") (map (fun sg => get_or "" (text sg)) suggestions).

End Formatter.

(** ** Vocabulary of the statements *)
Module Props.
Import Py Utils.

(** The last character of a string, for reasoning on [endswith]. *)
Fixpoint last_char (s : string) : option ascii :=
  match s with
  | EmptyString => None
  | String c EmptyString => Some c
  | String _ r => last_char r
  end.

(** [c in s] for a character [c]. *)
Fixpoint has_char (c : ascii) (s : string) : bool :=
  match s with
  | EmptyString => false
  | String a r => (a =? c)%char || has_char c r
  end.

Definition pipe : ascii := "|"%char.

(** What the tokenizer guarantees of a token on a line without separator. *)
Definition clean (t : string) : Prop := truthy t = true /\ has_char pipe t = false.

Definition pipe_free (t : string) : Prop := has_char pipe t = false.

(** The key parts of a context built from a token list. *)
Definition key_parts (toks : list string) : list string :=
  [or_empty (nth_error toks 0); or_empty (nth_error toks 1)] ++ skipn 2 toks.

(** The order of the eviction's sort. *)
Definition key_le {A : Type} (key : A -> Z) (x y : A) : Prop :=
  (key x <= key y)%Z.

(** A manager holding one entry, in step with its backing store. *)
Definition sample_entry : Cache.Entry :=
  {| Cache.suggestions := Some ["add"; "commit"]; Cache.created := Some 100%Z;
     Cache.last_used := Some 100%Z; Cache.hit_count := Some 0%Z;
     Cache.ttl := Some 3600%Z |}.

Definition sample_manager : Cache.CacheManager :=
  {| Cache.max_size := 1000; Cache.cache := [("git|", sample_entry)];
     Cache.cache_file := Some [("git|", sample_entry)];
     Cache.writable := true |}.

(** The tests of the three buckets of [rank_suggestions], for a lowered
    current word [cw]. *)
Definition is_exact (cw s : string) : bool := (lower s =? cw)%string.

Definition is_prefix_only (cw s : string) : bool :=
  negb (is_exact cw s) && startswith (lower s) cw.

Definition is_other (cw s : string) : bool :=
  negb (is_exact cw s) && negb (startswith (lower s) cw).

(** The list cached under [key], when there is an entry. *)
Definition cached_under (w : Predictor.World) (key : string)
  : option (option (list string)) :=
  option_map Cache.suggestions
             (dict_get (Cache.cache (Predictor.w_cache w)) key).

(** Where a scan of a line stands with respect to quoting. *)
Inductive quoting : Type :=
| Outside                 (* not inside quotes *)
| Inside (q : ascii)      (* inside quotes opened by [q] *)
| InsideEscaped.          (* inside double quotes, just after a backslash *)

(** What the current word holds so far. *)
Inductive word_so_far : Type :=
| NoWord                  (* nothing yet *)
| EmptyQuotes             (* quotes were opened, no character yet *)
| HasChars.               (* at least one character *)

Definition only_empty_quotes (w : word_so_far) : bool :=
  match w with EmptyQuotes => true | _ => false end.

(** The lines on which [shlex] and the tokenizer of [utils] read the same
    words: every quote is closed; no word is made of empty quotes only;
    outside quotes there is no backslash and every whitespace character is
    one of the lexer's (space, tab, carriage return, newline); inside double
    quotes a backslash is followed by a character other than a backslash or
    a double quote.  Inside single quotes every character is allowed. *)
Fixpoint agreeable (s : string) (st : quoting) (w : word_so_far) : bool :=
  match s with
  | EmptyString =>
      match st with
      | Outside => negb (only_empty_quotes w)
      | _ => false
      end
  | String c r =>
      match st with
      | Outside =>
          if Shlex.quotes c then
            agreeable r (Inside c) (match w with NoWord => EmptyQuotes | _ => w end)
          else if Shlex.escape c then false
          else if isspace c then
            Shlex.whitespace c && negb (only_empty_quotes w)
            && agreeable r Outside NoWord
          else agreeable r Outside HasChars
      | Inside q =>
          if (c =? q)%char then agreeable r Outside w
          else if Shlex.escape c && Shlex.escapedquotes q
          then agreeable r InsideEscaped w
          else agreeable r (Inside q) HasChars
      | InsideEscaped =>
          if (c =? backslash)%char || (c =? dquote)%char then false
          else agreeable r (Inside dquote) HasChars
      end
  end.

(** No quote character at all. *)
Definition quote_free (s : string) : bool :=
  negb (has_char dquote s) && negb (has_char squote s).

(** The condition of agreement of the two context builders on a line
    prefix: it is [agreeable], or it has no quote character and [shlex]
    raises on it (it ends in a backslash with nothing to escape), so that
    [parse_context] falls back on [str.split]. *)
Definition agree_condition (prefix : string) : bool :=
  agreeable prefix Outside NoWord
  || (quote_free prefix
      && match Shlex.split prefix with None => true | Some _ => false end).

(** The states of the lexer of [shlex] and of the tokenizer that go
    together: lexer state, token and [quoted] on the left, current token,
    [in_quotes] and [quote_char] on the right. *)
Inductive in_step : quoting -> word_so_far ->
                    Shlex.state -> string -> bool ->
                    string -> bool -> option ascii -> Prop :=
| step_blank :
    in_step Outside NoWord Shlex.Blank "" false "" false None
| step_empty :
    in_step Outside EmptyQuotes Shlex.Word "" true "" false None
| step_word t b :
    truthy t = true ->
    in_step Outside HasChars Shlex.Word t b t false None
| step_quote_empty q :
    Shlex.quotes q = true ->
    in_step (Inside q) EmptyQuotes (Shlex.Quoted q) "" true "" true (Some q)
| step_quote t q :
    Shlex.quotes q = true -> truthy t = true ->
    in_step (Inside q) HasChars (Shlex.Quoted q) t true t true (Some q)
| step_escaped t w :
    in_step InsideEscaped w (Shlex.Escaped (Some dquote)) t true
            (t ++ String backslash "") true (Some dquote).

Definition tab_char : ascii := "009"%char.

(** The characters [sanitize_suggestion] escapes. *)
Definition needs_escape (c : ascii) : bool :=
  (c =? backslash)%char || (c =? dquote)%char || (c =? squote)%char.

(** Escaping in one pass: a backslash before every character that needs
    one. *)
Fixpoint escape_all (s : string) : string :=
  match s with
  | EmptyString => EmptyString
  | String c r =>
      if needs_escape c then String backslash (String c (escape_all r))
      else String c (escape_all r)
  end.

(** Read as shell text: a backslash takes the next character with it, and
    no quote stands without a backslash before it. *)
Fixpoint well_escaped (s : string) : bool :=
  match s with
  | EmptyString => true
  | String c r =>
      if (c =? backslash)%char then
        match r with
        | EmptyString => false
        | String _ r' => well_escaped r'
        end
      else if (c =? dquote)%char || (c =? squote)%char then false
      else well_escaped r
  end.

(** [spaced s prev]: every whitespace character of [s] is a space that
    follows a non-whitespace character ([prev]: the character before [s] was
    whitespace, or [s] is at the start), and [s] does not end in one. *)
Fixpoint spaced (s : string) (prev : bool) : bool :=
  match s with
  | EmptyString => negb prev
  | String c r =>
      if isspace c then (c =? " ")%char && negb prev && spaced r true
      else spaced r false
  end.

(** Words separated by single spaces, or nothing at all. *)
Definition tidy (s : string) : bool :=
  match s with
  | EmptyString => true
  | _ => spaced s true
  end.

(** No whitespace at either end. *)
Definition trimmed (s : string) : Prop :=
  (forall c r, s = String c r -> isspace c = false)
  /\ (forall ch, last_char s = Some ch -> isspace ch = false).

(** Characters [lower] leaves alone. *)
Definition lowered (s : string) : Prop :=
  UtilsRest.all_of (fun c => (lower_char c =? c)%char) s = true.

(** [flags.get(m, [])]: what one visit of the extension loop appends. *)
Definition flags_of (fl : dict (list string)) (m : string) : list string :=
  dict_get_default fl m [].

(** No flag of any entry is itself a key with flags of its own. *)
Definition leafy_flags (fl : dict (list string)) : bool :=
  forallb (fun kv => forallb (fun f => negb (dict_contains fl f)) (snd kv)) fl.

(** The most elements the extension loop can visit for a command. *)
Definition loop_bound (data : Predictor.CmdData) : nat :=
  List.length (Predictor.subcommands data)
  + List.length (flat_map (flags_of (Predictor.flags data))
                          (Predictor.subcommands data)).

(** Every command of the table has leafy flags and a loop bound below
    [fuel]. *)
Definition table_terminates (fuel : nat) (table : dict Predictor.CmdData) : bool :=
  forallb (fun kv => leafy_flags (Predictor.flags (snd kv))
                     && (loop_bound (snd kv) <? fuel))
          table.

(** A table whose only subcommand lists itself among its flags. *)
Definition looping_table : dict Predictor.CmdData :=
  [ ("x", {| Predictor.subcommands := ["x"];
             Predictor.flags := [("x", ["x"])] |}) ].

(** The subcommand and the command of an extraction that did not raise. *)
Definition option_map_subcommand (c : option Context) : option string :=
  match c with Some ctx => subcommand ctx | None => None end.

Definition option_map_command (c : option Context) : option string :=
  match c with Some ctx => command ctx | None => None end.

End Props.

(** * Properties *)

Import Props.

(** ** Strings and slices *)
Section StringFacts.
Import Py.

Lemma get_in_range (s : string) (i : nat) :
  i < length s -> exists c, get i s = Some c.
Proof.
  revert i; induction s as [|a s IH]; intros i Hi; simpl in *; [lia|].
  destruct i as [|i]; [eauto|]. apply IH; lia.
Qed.

Lemma substring_zero_length (s : string) (n : nat) : substring n 0 s = "".
Proof.
  revert n; induction s as [|a s IH]; intros [|n]; simpl; auto.
Qed.


Lemma substring_whole (s : string) : substring 0 (length s) s = s.
Proof. induction s; simpl; congruence. Qed.


Lemma last_char_suffix (s : string) (n : nat) :
  n < length s -> last_char (substring n (length s - n) s) = last_char s.
Proof.
  revert n; induction s as [|a s IH]; intros n Hn; simpl in Hn; [lia|].
  destruct n as [|n].
  - rewrite Nat.sub_0_r, substring_whole. reflexivity.
  - change (substring (S n) (length (String a s) - S n) (String a s))
      with (substring n (length s - n) s).
    rewrite IH by lia. destruct s; simpl in *; [lia | reflexivity].
Qed.


End StringFacts.

(** ** The context extractor *)
Section Extraction.
Import Py Utils.

Lemma find_word_start_spec (line : string) (n ws : nat) :
  n <= length line ->
  exists r, find_word_start line n ws = Some r
            /\ (n = 0 -> r = ws) /\ (0 < n -> r <= n).
Proof.
  revert ws; induction n as [|i IH]; intros ws Hn; simpl.
  - exists ws. repeat split; auto; lia.
  - destruct (get_in_range line i) as [ch Hch]; [lia|]. rewrite Hch.
    destruct (isspace ch).
    + exists (i + 1). repeat split; lia.
    + destruct (IH i) as (r & Hr & H0 & Hpos); [lia|].
      exists r. split; [exact Hr|]. split; [lia|]. intros _.
      destruct i; [rewrite H0 by reflexivity; lia | specialize (Hpos ltac:(lia)); lia].
Qed.

Lemma find_word_end_spec (line : string) (k i : nat) :
  i + k <= length line ->
  exists r, find_word_end line k i i = Some r /\ i <= r <= i + k.
Proof.
  revert i; induction k as [|k IH]; intros i Hk; simpl.
  - exists i. split; [reflexivity | lia].
  - destruct (get_in_range line i) as [ch Hch]; [lia|]. rewrite Hch.
    destruct (isspace ch).
    + exists i. split; [reflexivity | lia].
    + destruct (IH (S i)) as (r & Hr & Hb); [lia|].
      exists r. split; [exact Hr | lia].
Qed.


Lemma truthy_false (s : string) : truthy s = false -> s = "".
Proof. destruct s; simpl; congruence. Qed.




End Extraction.

(** ** The cache key *)
Section CacheKey.
Import Py Utils.

Lemma has_char_app (c : ascii) (s1 s2 : string) :
  has_char c (s1 ++ s2) = has_char c s1 || has_char c s2.
Proof. induction s1; simpl; [reflexivity | rewrite IHs1; apply orb_assoc]. Qed.

Lemma has_char_substring (c : ascii) (s : string) (a n : nat) :
  has_char c s = false -> has_char c (substring a n s) = false.
Proof.
  revert a n; induction s as [|x s IH]; intros a n H; simpl in *.
  - destruct a, n; reflexivity.
  - apply orb_false_iff in H as [Hx Hs].
    destruct a as [|a]; [destruct n as [|n]|]; simpl; auto.
    rewrite Hx. simpl. auto.
Qed.

Lemma has_char_slice_to (c : ascii) (s : string) (n : Z) :
  has_char c s = false -> has_char c (slice_to n s) = false.
Proof.
  intros H. unfold slice_to. destruct (n <? 0)%Z; now apply has_char_substring.
Qed.

Lemma tokenize_loop_clean (line : string) :
  has_char pipe line = false ->
  forall toks cur inq qc,
    Forall clean toks -> has_char pipe cur = false ->
    Forall clean (tokenize_loop line toks cur inq qc).
Proof.
  induction line as [|ch rest IH]; intros Hl toks cur inq qc Ht Hc; simpl.
  - destruct (truthy cur) eqn:Hcur; [|exact Ht].
    apply Forall_app; split; [exact Ht|]. repeat constructor; assumption.
  - simpl in Hl. apply orb_false_iff in Hl as [Hch Hrest].
    assert (Hcur' : has_char pipe (cur ++ String ch "") = false).
    { rewrite has_char_app, Hc. simpl. now rewrite Hch. }
    assert (Hpush : truthy cur = true -> Forall clean (toks ++ [cur])).
    { intros Hcur. apply Forall_app; split; [exact Ht|].
      repeat constructor; assumption. }
    repeat match goal with
           | |- context [if ?b then _ else _] => destruct b eqn:?
           end; apply IH; auto.
Qed.

Lemma tokenize_clean (line : string) :
  has_char pipe line = false -> Forall clean (tokenize_command_line line).
Proof.
  intros H. unfold tokenize_command_line.
  destruct (truthy line); simpl; [|constructor].
  now apply tokenize_loop_clean.
Qed.

Lemma pipe_split_unique (a b r1 r2 : string) :
  has_char pipe a = false -> has_char pipe b = false ->
  (a ++ String pipe r1 = b ++ String pipe r2)%string -> a = b /\ r1 = r2.
Proof.
  revert b; induction a as [|x a IH]; intros [|y b] Ha Hb H; simpl in *.
  - injection H as ->. auto.
  - injection H as Hx _. subst y. unfold pipe in Hb.
    rewrite Ascii.eqb_refl in Hb. discriminate.
  - injection H as Hx _. subst x. unfold pipe in Ha.
    rewrite Ascii.eqb_refl in Ha. discriminate.
  - injection H as -> H.
    apply orb_false_iff in Ha as [_ Ha]. apply orb_false_iff in Hb as [_ Hb].
    destruct (IH b Ha Hb H) as [-> ->]. auto.
Qed.

Lemma pipe_free_not_joined (a b r : string) :
  has_char pipe a = false -> a <> (b ++ String pipe r)%string.
Proof.
  intros Ha ->. rewrite has_char_app in Ha.
  change (has_char pipe (String pipe r))
    with ((pipe =? pipe)%char || has_char pipe r) in Ha.
  rewrite Ascii.eqb_refl, orb_true_l, orb_true_r in Ha. discriminate.
Qed.

(** [join] with the separator is injective on non-empty lists of parts
    that do not contain it. *)
Lemma join_pipe_injective (l1 l2 : list string) :
  l1 <> [] -> l2 <> [] ->
  Forall pipe_free l1 -> Forall pipe_free l2 ->
  join "|" l1 = join "|" l2 -> l1 = l2.
Proof.
  unfold join. revert l2.
  induction l1 as [|a l1 IH]; intros l2 H1 H2 F1 F2 H; [congruence|].
  destruct l2 as [|b l2]; [congruence|].
  inversion F1 as [|? ? Ha F1']; inversion F2 as [|? ? Hb F2']; subst.
  destruct l1 as [|x l1], l2 as [|y l2]; simpl in H.
  - congruence.
  - exfalso. eapply (pipe_free_not_joined a b); [exact Ha | exact H].
  - exfalso. eapply (pipe_free_not_joined b a); [exact Hb | symmetry; exact H].
  - apply pipe_split_unique in H as [-> H]; [|assumption..].
    f_equal. apply IH; try assumption; discriminate.
Qed.

Lemma key_parts_injective (t1 t2 : list string) :
  Forall clean t1 -> Forall clean t2 -> key_parts t1 = key_parts t2 -> t1 = t2.
Proof.
  intros F1 F2 H.
  assert (Hne : forall t l, Forall clean (t :: l) -> t <> "").
  { intros t l F ->. inversion F as [|? ? [Ht _] _]. discriminate. }
  assert (Hne2 : forall a t l, Forall clean (a :: t :: l) -> t <> "").
  { intros a t l F. inversion F; subst. eauto. }
  destruct t1 as [|a1 [|b1 r1]], t2 as [|a2 [|b2 r2]];
    unfold key_parts in H; simpl in H; inversion H; subst;
    try reflexivity;
    solve [ exfalso; eapply Hne; eauto
          | exfalso; eapply Hne2; eauto ].
Qed.

Lemma key_parts_pipe_free (toks : list string) :
  Forall clean toks -> Forall pipe_free (key_parts toks).
Proof.
  intros F. rewrite Forall_forall in F. unfold key_parts.
  assert (Hn : forall n, pipe_free (or_empty (nth_error toks n))).
  { intros n. destruct (nth_error toks n) eqn:Hn; simpl; [|reflexivity].
    apply nth_error_In in Hn. now destruct (F _ Hn). }
  repeat constructor; try apply Hn.
  rewrite Forall_forall. intros x Hx. apply F.
  rewrite <- (firstn_skipn 2 toks). apply in_or_app. now right.
Qed.

(** The fields the key is made of come from a list of clean tokens, the
    tokens of the line up to the cursor. *)
Lemma extract_from_tokens (line : string) (cursor : Z) (ctx : Context) :
  has_char pipe (slice_to cursor line) = false ->
  extract_command_context line cursor = Some ctx ->
  exists toks,
    Forall clean toks
    /\ command ctx = nth_error toks 0
    /\ subcommand ctx = nth_error toks 1
    /\ args ctx = skipn 2 toks
    /\ (forall ts, tokens ctx = Some ts -> ts = toks).
Proof.
  intros Hl. unfold extract_command_context.
  destruct (negb (truthy line) || (cursor <? 0)%Z).
  - intros [= <-]. exists []. simpl. repeat split; auto. discriminate.
  - cbv zeta.
    destruct (find_word_start _ _ _); [|discriminate].
    destruct (find_word_end _ _ _ _); [|discriminate].
    match goal with
    | |- match ?e with _ => _ end = _ -> _ => destruct e; [|discriminate]
    end.
    intros [= <-]. eexists. split; [|simpl; repeat split; auto; congruence].
    now apply tokenize_clean.
Qed.

(** X29.  When the line up to the cursor does not contain the separator
    [|], no token of the extracted context contains it, and two such
    contexts with the same cache key have the same command, subcommand and
    arguments. *)
Theorem cache_key_injective (line1 line2 : string) (cursor1 cursor2 : Z)
        (ctx1 ctx2 : Context) :
  has_char pipe (slice_to cursor1 line1) = false ->
  has_char pipe (slice_to cursor2 line2) = false ->
  extract_command_context line1 cursor1 = Some ctx1 ->
  extract_command_context line2 cursor2 = Some ctx2 ->
  (forall toks, tokens ctx1 = Some toks ->
                Forall (fun t => has_char pipe t = false) toks)
  /\ (forall toks, tokens ctx2 = Some toks ->
                   Forall (fun t => has_char pipe t = false) toks)
  /\ (create_cache_key ctx1 = create_cache_key ctx2 ->
      command ctx1 = command ctx2
      /\ subcommand ctx1 = subcommand ctx2
      /\ args ctx1 = args ctx2).
Proof.
  intros H1 H2 E1 E2.
  destruct (extract_from_tokens _ _ _ H1 E1) as (t1 & F1 & C1 & S1 & A1 & T1).
  destruct (extract_from_tokens _ _ _ H2 E2) as (t2 & F2 & C2 & S2 & A2 & T2).
  assert (Hfree : forall t, Forall clean t ->
                            Forall (fun x => has_char pipe x = false) t).
  { intros t F. eapply Forall_impl; [|exact F]. now intros x [_ Hx]. }
  split; [intros toks Ht; rewrite (T1 _ Ht); now apply Hfree|].
  split; [intros toks Ht; rewrite (T2 _ Ht); now apply Hfree|].
  intros K.
  unfold create_cache_key in K. rewrite C1, S1, A1, C2, S2, A2 in K.
  fold (key_parts t1) in K. fold (key_parts t2) in K.
  apply join_pipe_injective in K;
    [ | discriminate | discriminate
      | now apply key_parts_pipe_free | now apply key_parts_pipe_free ].
  apply key_parts_injective in K; [|assumption..]. subst t2.
  rewrite C1, S1, A1, C2, S2, A2. auto.
Qed.

(** X29 witness: [git commit] and [git commit -m|x], both with the cursor
    after [commit], before the separator of the second line. *)
Lemma cache_key_injective_witness :
  exists ctx1 ctx2,
    extract_command_context "git commit" 10 = Some ctx1
    /\ extract_command_context "git commit -m|x" 10 = Some ctx2
    /\ current_word ctx1 <> current_word ctx2
    /\ (forall toks, tokens ctx1 = Some toks ->
                     Forall (fun t => has_char pipe t = false) toks)
    /\ (forall toks, tokens ctx2 = Some toks ->
                     Forall (fun t => has_char pipe t = false) toks)
    /\ (create_cache_key ctx1 = create_cache_key ctx2 ->
        command ctx1 = command ctx2
        /\ subcommand ctx1 = subcommand ctx2
        /\ args ctx1 = args ctx2).
Proof.
  do 2 eexists. split; [reflexivity|]. split; [reflexivity|].
  split; [discriminate|].
  apply (cache_key_injective "git commit" "git commit -m|x" 10 10);
    reflexivity.
Defined.

(** The tokenizer keeps a [|] of the input inside a token, and the contexts
    of [a|b] and [a b|] differ and get the same key. *)
Lemma cache_key_collision_counterexample :
  ~ (forall ctx1 ctx2,
       extract_command_context "a|b" 3 = Some ctx1 ->
       extract_command_context "a b|" 4 = Some ctx2 ->
       create_cache_key ctx1 = create_cache_key ctx2 ->
       command ctx1 = command ctx2
       /\ subcommand ctx1 = subcommand ctx2
       /\ args ctx1 = args ctx2).
Proof.
  intros H. destruct (H _ _ eq_refl eq_refl eq_refl) as [Hc _].
  vm_compute in Hc. discriminate.
Qed.

End CacheKey.

(** ** Dictionaries *)
Section DictFacts.
Import Py.
Context {V : Type}.
Implicit Types (d : dict V) (k : string) (v : V).

Lemma dict_get_set_same d k v : dict_get (dict_set d k v) k = Some v.
Proof.
  induction d as [|[k' v'] d IH]; simpl.
  - now rewrite String.eqb_refl.
  - destruct (String.eqb_spec k' k) as [->|Hne]; simpl.
    + now rewrite String.eqb_refl.
    + apply String.eqb_neq in Hne. now rewrite Hne.
Qed.

Lemma dict_get_set_other d k k' v :
  k' <> k -> dict_get (dict_set d k v) k' = dict_get d k'.
Proof.
  intros Hne. induction d as [|[k0 v0] d IH]; simpl.
  - apply not_eq_sym in Hne. apply String.eqb_neq in Hne. now rewrite Hne.
  - destruct (String.eqb_spec k0 k) as [->|Hk]; simpl.
    + apply not_eq_sym in Hne. apply String.eqb_neq in Hne. now rewrite Hne.
    + now rewrite IH.
Qed.

Lemma dict_keys_set_present d k v e :
  dict_get d k = Some e -> dict_keys (dict_set d k v) = dict_keys d.
Proof.
  induction d as [|[k0 v0] d IH]; simpl; [discriminate|].
  destruct (String.eqb_spec k0 k) as [->|Hk]; simpl; intros H.
  - reflexivity.
  - f_equal. now apply IH.
Qed.

Lemma dict_set_length d k v : List.length (dict_set d k v) <= S (List.length d).
Proof.
  induction d as [|[k0 v0] d IH]; simpl; [lia|].
  destruct (k0 =? k)%string; simpl; lia.
Qed.

Lemma dict_set_fresh d k v :
  ~ In k (dict_keys d) -> dict_set d k v = d ++ [(k, v)].
Proof.
  induction d as [|[k0 v0] d IH]; simpl; intros Hn; [reflexivity|].
  destruct (String.eqb_spec k0 k) as [->|Hk]; [tauto|].
  f_equal. apply IH. tauto.
Qed.

Lemma dict_set_keys_in d k v x :
  In x (dict_keys (dict_set d k v)) <-> x = k \/ In x (dict_keys d).
Proof.
  induction d as [|[k0 v0] d IH]; simpl.
  - intuition congruence.
  - destruct (String.eqb_spec k0 k) as [->|Hk]; simpl.
    + intuition congruence.
    + rewrite IH. tauto.
Qed.

Lemma dict_set_nodup d k v :
  NoDup (dict_keys d) -> NoDup (dict_keys (dict_set d k v)).
Proof.
  induction d as [|[k0 v0] d IH]; simpl; intros Hnd.
  - repeat constructor. simpl. tauto.
  - inversion Hnd as [|? ? Hnin Hnd']; subst.
    destruct (String.eqb_spec k0 k) as [->|Hk]; simpl.
    + now constructor.
    + constructor; [|now apply IH].
      rewrite dict_set_keys_in. intros [->|Hin]; tauto.
Qed.

Lemma dict_of_items_from (items acc : dict V) :
  NoDup (dict_keys (acc ++ items)) ->
  fold_left (fun d kv => dict_set d (fst kv) (snd kv)) items acc = acc ++ items.
Proof.
  revert acc; induction items as [|[k v] items IH]; intros acc Hnd; simpl.
  - now rewrite app_nil_r.
  - rewrite dict_set_fresh.
    + rewrite IH; rewrite <- app_assoc; [reflexivity | exact Hnd].
    + unfold dict_keys in *. rewrite map_app in Hnd. simpl in Hnd.
      apply NoDup_remove_2 in Hnd. intros Hin. apply Hnd.
      apply in_or_app. now left.
Qed.

(** [dict(items)] gives back [items] when their keys are distinct. *)
Lemma dict_of_items_nodup (items : dict V) :
  NoDup (dict_keys items) -> dict_of_items items = items.
Proof. intros H. unfold dict_of_items. now rewrite dict_of_items_from. Qed.

Lemma dict_of_items_length_from (items acc : dict V) :
  List.length (fold_left (fun d kv => dict_set d (fst kv) (snd kv)) items acc)
  <= List.length acc + List.length items.
Proof.
  revert acc; induction items as [|[k v] items IH]; intros acc; simpl; [lia|].
  etransitivity; [apply IH|]. pose proof (dict_set_length acc k v). lia.
Qed.

Lemma dict_of_items_length (items : dict V) :
  List.length (dict_of_items items) <= List.length items.
Proof. apply (dict_of_items_length_from items []). Qed.

End DictFacts.

(** ** The stable sort of the eviction *)
Section SortFacts.
Import Py.
Context {A : Type} (key : A -> Z).

Lemma insert_sorted_perm (x : A) (l : list A) :
  Permutation (x :: l) (insert_sorted key x l).
Proof.
  induction l as [|y l IH]; simpl; [reflexivity|].
  destruct (key x <=? key y)%Z; [reflexivity|].
  rewrite perm_swap. now constructor.
Qed.

Lemma sorted_perm (l : list A) : Permutation l (sorted key l).
Proof.
  induction l as [|x l IH]; simpl; [constructor|].
  rewrite <- insert_sorted_perm. now constructor.
Qed.

Lemma sorted_length (l : list A) : List.length (sorted key l) = List.length l.
Proof. symmetry. apply Permutation_length, sorted_perm. Qed.

Lemma insert_sorted_ascending (x : A) (l : list A) :
  StronglySorted (key_le key) l -> StronglySorted (key_le key) (insert_sorted key x l).
Proof.
  induction 1 as [|y l Hl IH Hy]; simpl.
  - repeat constructor.
  - destruct (Z.leb_spec (key x) (key y)) as [Hle|Hgt].
    + constructor; [now constructor|].
      constructor; [exact Hle|].
      rewrite Forall_forall in *. intros z Hz. specialize (Hy z Hz).
      unfold key_le in *. lia.
    + constructor; [exact IH|].
      rewrite Forall_forall in *. intros z Hz.
      apply (Permutation_in _ (Permutation_sym (insert_sorted_perm x l))) in Hz.
      destruct Hz as [<-|Hz]; [unfold key_le; lia | now apply Hy].
Qed.

Lemma sorted_ascending (l : list A) : StronglySorted (key_le key) (sorted key l).
Proof.
  induction l as [|x l IH]; simpl; [constructor|].
  now apply insert_sorted_ascending.
Qed.

(** In an ascending list nothing before a cut exceeds anything after it. *)
Lemma ascending_cut (l : list A) (n : nat) (a b : A) :
  StronglySorted (key_le key) l ->
  In a (firstn n l) -> In b (skipn n l) -> key_le key a b.
Proof.
  intros Hs. revert n. induction Hs as [|x l Hl IH Hx]; intros n Ha Hb.
  - destruct n; simpl in Ha; contradiction.
  - destruct n as [|n]; simpl in Ha, Hb; [contradiction|].
    destruct Ha as [<-|Ha].
    + rewrite Forall_forall in Hx. apply Hx.
      rewrite <- (firstn_skipn n l). apply in_or_app. now right.
    + now apply (IH n).
Qed.

End SortFacts.

(** ** The cache layer *)
Section CacheFacts.
Import Py Cache.

Lemma save_cache_cache (m : CacheManager) : cache (_save_cache m) = cache m.
Proof. unfold _save_cache. now destruct (writable m). Qed.

Lemma save_cache_synced (m : CacheManager) :
  writable m = true -> cache_file (_save_cache m) = Some (cache (_save_cache m)).
Proof. intros H. unfold _save_cache. now rewrite H. Qed.

(** [set], [invalidate] on a present key and [clear] end with the store
    equal to the memory whenever the store can be written. *)
Lemma set_persists (tc tl : Z) (key : string) (suggs : list string) (t : Z)
      (m : CacheManager) :
  writable m = true ->
  cache_file (set tc tl key suggs t m) = Some (cache (set tc tl key suggs t m)).
Proof.
  intros H. unfold set. apply save_cache_synced.
  unfold _cleanup_cache. now destruct (_ <? _)%Z.
Qed.

Lemma invalidate_persists (key : string) (m : CacheManager) :
  writable m = true -> dict_contains (cache m) key = true ->
  cache_file (invalidate key m) = Some (cache (invalidate key m)).
Proof. intros H Hk. unfold invalidate. rewrite Hk. now apply save_cache_synced. Qed.

Lemma clear_persists (m : CacheManager) :
  writable m = true -> cache_file (clear m) = Some (cache (clear m)).
Proof. intros H. unfold clear. now apply save_cache_synced. Qed.

(** C10.  A [get] on a present key returns the stored suggestions and changes
    only [last_used] and [hit_count] of that entry, the latter by one: the
    keys and their order, the other fields of the entry and every other
    entry are unchanged. *)
Theorem get_hit_frame (now : Z) (key : string) (m : CacheManager) (entry : Entry) :
  dict_get (cache m) key = Some entry ->
  exists entry',
    get now key m
    = (Some (get_or [] (suggestions entry)),
       with_cache m (dict_set (cache m) key entry'))
    /\ dict_get (cache (snd (get now key m))) key = Some entry'
    /\ suggestions entry' = suggestions entry
    /\ created entry' = created entry
    /\ ttl entry' = ttl entry
    /\ last_used entry' = Some now
    /\ hit_count entry' = Some (get_or 0 (hit_count entry) + 1)%Z
    /\ dict_keys (cache (snd (get now key m))) = dict_keys (cache m)
    /\ (forall k, k <> key ->
          dict_get (cache (snd (get now key m))) k = dict_get (cache m) k).
Proof.
  intros Hget. unfold get. rewrite Hget. eexists. split; [reflexivity|].
  cbn [snd with_cache cache suggestions created ttl last_used hit_count].
  repeat split.
  - apply dict_get_set_same.
  - eapply dict_keys_set_present; eassumption.
  - intros k Hk. now apply dict_get_set_other.
Qed.

(** C10 witness: the entry of [sample_manager]. *)
Lemma get_hit_frame_witness :
  exists entry',
    get 200 "git|" sample_manager
    = (Some (get_or [] (suggestions sample_entry)),
       with_cache sample_manager
                  (dict_set (cache sample_manager) "git|" entry'))
    /\ dict_get (cache (snd (get 200 "git|" sample_manager))) "git|" = Some entry'
    /\ suggestions entry' = suggestions sample_entry
    /\ created entry' = created sample_entry
    /\ ttl entry' = ttl sample_entry
    /\ last_used entry' = Some 200%Z
    /\ hit_count entry' = Some (get_or 0 (hit_count sample_entry) + 1)%Z
    /\ dict_keys (cache (snd (get 200 "git|" sample_manager)))
       = dict_keys (cache sample_manager)
    /\ (forall k, k <> "git|" ->
          dict_get (cache (snd (get 200 "git|" sample_manager))) k
          = dict_get (cache sample_manager) k).
Proof. apply (get_hit_frame 200 "git|" sample_manager sample_entry). reflexivity. Defined.

(** A hit never leaves a store that was in step with the memory in step:
    [get] changes the entry and does not call [_save_cache]. *)
Lemma get_hit_store_stale (now : Z) (key : string) (m : CacheManager) (entry : Entry) :
  dict_get (cache m) key = Some entry ->
  cache_file m = Some (cache m) ->
  cache_file (snd (get now key m)) <> Some (cache (snd (get now key m))).
Proof.
  intros Hget Hsync. unfold get. rewrite Hget. cbn [snd with_cache cache cache_file].
  rewrite Hsync. intros [= Heq].
  pose proof (dict_get_set_same (cache m) key
    {| suggestions := suggestions entry; created := created entry;
       last_used := Some now;
       hit_count := Some (get_or 0 (hit_count entry) + 1)%Z;
       ttl := ttl entry |}) as Hsame.
  rewrite <- Heq, Hget in Hsame. injection Hsame as Hentry.
  apply (f_equal hit_count) in Hentry. cbn in Hentry.
  destruct (hit_count entry); cbn in Hentry; [injection Hentry as Hh; lia | discriminate].
Qed.

(** C8 (the code at the failing input).  The store of [sample_manager] can be
    written and equals the memory; after the hit on [git|] the memory holds
    hit count 1 and last-used 200 while the store still holds 0 and 100. *)
Theorem get_hit_not_persisted :
  writable sample_manager = true
  /\ cache_file sample_manager = Some (cache sample_manager)
  /\ fst (get 200 "git|" sample_manager) = Some ["add"; "commit"]
  /\ cache_file (snd (get 200 "git|" sample_manager))
     <> Some (cache (snd (get 200 "git|" sample_manager)))
  /\ option_map hit_count
       (dict_get (cache (snd (get 200 "git|" sample_manager))) "git|")
     = Some (Some 1%Z)
  /\ option_map (fun file => option_map hit_count (dict_get file "git|"))
       (cache_file (snd (get 200 "git|" sample_manager)))
     = Some (Some (Some 0%Z)).
Proof. repeat split; try reflexivity. vm_compute. discriminate. Qed.

(** [get] does not look at [created] or [ttl]. *)
Lemma get_ignores_ttl (now : Z) (key : string) (m : CacheManager) (entry : Entry) :
  dict_get (cache m) key = Some entry ->
  fst (get now key m) = Some (get_or [] (suggestions entry)).
Proof. intros H. unfold get. now rewrite H. Qed.

(** C3 (the code at the failing input).  The entry of [sample_manager] was
    created at 100 with a time-to-live of 3600; at 100000 it is expired by
    the test of [cleanup_expired], which removes it, and [get] returns it. *)
Theorem get_returns_expired_entry :
  expired 100000 sample_entry = true
  /\ cache (cleanup_expired 100000 sample_manager) = []
  /\ fst (get 100000 "git|" sample_manager) = Some ["add"; "commit"].
Proof. repeat split; reflexivity. Qed.

(** *** Eviction *)

Lemma slice_tail_length {A} (n : Z) (l : list A) :
  (1 <= n <= Z.of_nat (List.length l))%Z ->
  list_slice_from (- n) l = skipn (List.length l - Z.to_nat n) l
  /\ Z.of_nat (List.length (list_slice_from (- n) l)) = n.
Proof.
  intros Hn. unfold list_slice_from.
  replace (- n <? 0)%Z with true by (symmetry; apply Z.ltb_lt; lia).
  replace (Z.to_nat (Z.of_nat (List.length l) + - n))
    with (List.length l - Z.to_nat n) by lia.
  split; [reflexivity|]. rewrite length_skipn. lia.
Qed.

(** With a maximum of at least one, [_cleanup_cache] leaves at most
    [max_size] entries. *)
Lemma cleanup_size_bounded (m : CacheManager) :
  (1 <= max_size m)%Z ->
  (Z.of_nat (List.length (cache (_cleanup_cache m))) <= max_size m)%Z.
Proof.
  intros Hmax. unfold _cleanup_cache.
  destruct (Z.ltb_spec (max_size m) (Z.of_nat (List.length (cache m)))) as [Hlt|Hge];
    [|exact Hge].
  cbn [with_cache cache].
  pose proof (dict_of_items_length
                (list_slice_from (- max_size m) (sorted last_used_key (cache m)))) as Hle.
  destruct (slice_tail_length (max_size m) (sorted last_used_key (cache m))) as [_ Hlen].
  { rewrite sorted_length. lia. }
  lia.
Qed.

(** X18.  With a maximum of at least one, every [set] leaves at most
    [max_size] entries, whatever the cache held before. *)
Lemma set_size_bounded (tc tl : Z) (key : string) (suggs : list string) (t : Z)
      (m : CacheManager) :
  (1 <= max_size m)%Z ->
  (Z.of_nat (List.length (cache (set tc tl key suggs t m))) <= max_size m)%Z.
Proof.
  intros Hmax. unfold set. rewrite save_cache_cache.
  apply (cleanup_size_bounded (with_cache m _)). exact Hmax.
Qed.

(** With a maximum of at least one, a cache over the maximum is cut to
    exactly [max_size] entries, and no dropped entry was used later than a
    retained one. *)
Lemma cleanup_keeps_most_recent (m : CacheManager) :
  (1 <= max_size m)%Z ->
  NoDup (dict_keys (cache m)) ->
  (max_size m < Z.of_nat (List.length (cache m)))%Z ->
  Z.of_nat (List.length (cache (_cleanup_cache m))) = max_size m
  /\ exists dropped,
       Permutation (dropped ++ cache (_cleanup_cache m)) (cache m)
       /\ forall d r, In d dropped -> In r (cache (_cleanup_cache m)) ->
                      (last_used_key d <= last_used_key r)%Z.
Proof.
  intros Hmax Hnd Hlt. unfold _cleanup_cache.
  replace (max_size m <? Z.of_nat (List.length (cache m)))%Z with true
    by (symmetry; apply Z.ltb_lt; exact Hlt).
  cbn [with_cache cache].
  set (items := sorted last_used_key (cache m)).
  destruct (slice_tail_length (max_size m) items) as [Hslice Hlen].
  { unfold items. rewrite sorted_length. lia. }
  assert (Hperm : Permutation (cache m) items) by apply sorted_perm.
  assert (Hnd' : NoDup (dict_keys (list_slice_from (- max_size m) items))).
  { rewrite Hslice. unfold dict_keys. rewrite <- skipn_map.
    apply (NoDup_app_remove_l
             (firstn (List.length items - Z.to_nat (max_size m)) (map fst items))).
    rewrite firstn_skipn. unfold dict_keys in Hnd.
    eapply Permutation_NoDup; [apply Permutation_map; exact Hperm | exact Hnd]. }
  rewrite (dict_of_items_nodup _ Hnd'). split; [exact Hlen|].
  exists (firstn (List.length items - Z.to_nat (max_size m)) items).
  rewrite Hslice. split.
  - rewrite firstn_skipn. now symmetry.
  - intros d r Hd Hr.
    eapply (ascending_cut last_used_key items); [|exact Hd|exact Hr].
    apply sorted_ascending.
Qed.

(** X19.  With a maximum of at least one, a [set] that takes the cache over
    the maximum leaves exactly [max_size] of the entries present after the
    write of the new entry, and no dropped entry was used later than a
    retained one. *)
Lemma set_keeps_most_recent (tc tl : Z) (key : string) (suggs : list string)
      (t : Z) (m : CacheManager) :
  let written :=
    dict_set (cache m) key
             {| suggestions := Some suggs; created := Some tc;
                last_used := Some tl; hit_count := Some 0%Z; ttl := Some t |} in
  (1 <= max_size m)%Z ->
  NoDup (dict_keys (cache m)) ->
  (max_size m < Z.of_nat (List.length written))%Z ->
  Z.of_nat (List.length (cache (set tc tl key suggs t m))) = max_size m
  /\ exists dropped,
       Permutation (dropped ++ cache (set tc tl key suggs t m)) written
       /\ forall d r, In d dropped -> In r (cache (set tc tl key suggs t m)) ->
                      (last_used_key d <= last_used_key r)%Z.
Proof.
  intros written Hmax Hnd Hlt. unfold set. rewrite save_cache_cache.
  apply (cleanup_keeps_most_recent (with_cache m written)); auto.
  cbn. now apply dict_set_nodup.
Qed.

(** C4 (the code at the failing input).  With a configured maximum of 0 the
    test [len(cache) > max_size] succeeds but the slice [sorted_items[-0:]]
    is the whole list: the cache holds one entry after the first [set] and
    two after the second. *)
Theorem set_exceeds_zero_maximum :
  let m0 := init None true 0 in
  let m1 := set 10 10 "git|" ["add"] 3600 m0 in
  let m2 := set 20 20 "ls|" ["-l"] 3600 m1 in
  max_size m2 = 0%Z
  /\ dict_keys (cache m1) = ["git|"]
  /\ dict_keys (cache m2) = ["git|"; "ls|"]
  /\ (max_size m2 < Z.of_nat (List.length (cache m2)))%Z.
Proof. cbv zeta. repeat split. Qed.

End CacheFacts.

(** ** The predictor *)
Section PredictorFacts.
Import Py Utils Predictor.

Lemma rank_buckets_filters (l : list string) (cw : string)
      (exact pref other : list string) :
  rank_buckets l cw exact pref other
  = (exact ++ List.filter (is_exact cw) l,
     pref ++ List.filter (is_prefix_only cw) l,
     other ++ List.filter (is_other cw) l).
Proof.
  revert exact pref other.
  induction l as [|s l IH]; intros exact pref other; simpl.
  - now rewrite !app_nil_r.
  - unfold is_prefix_only, is_other, is_exact.
    destruct (lower s =? cw)%string; simpl.
    + rewrite IH, <- app_assoc. reflexivity.
    + destruct (startswith (lower s) cw); simpl;
        rewrite IH, <- app_assoc; reflexivity.
Qed.

(** [rank_suggestions] is the concatenation of three order-preserving
    filters of its input. *)
Lemma rank_suggestions_filters (l : list string) (context : Context) :
  rank_suggestions l context
  = List.filter (is_exact (lower (current_word context))) l
    ++ List.filter (is_prefix_only (lower (current_word context))) l
    ++ List.filter (is_other (lower (current_word context))) l.
Proof.
  unfold rank_suggestions. destruct l as [|s l]; [reflexivity|].
  now rewrite rank_buckets_filters.
Qed.

(** X20.  On a cache miss with a non-empty current word the ranking law holds:
    every candidate returned starts with the word, case-insensitively, and
    those equal to it come first. *)
Lemma predict_miss_ranking_law (fuel : nat) (tg tc tl : Z) (context : Context)
      (w w' : World) (result : list string) :
  dict_get (Cache.cache (w_cache w)) (create_cache_key context) = None ->
  truthy (current_word context) = true ->
  predict_rule_based fuel tg tc tl context w = Some (result, w') ->
  Forall (fun s => startswith (lower s) (lower (current_word context)) = true)
         result
  /\ exists exact rest,
       result = exact ++ rest
       /\ Forall (fun s => lower s = lower (current_word context)) exact
       /\ Forall (fun s => lower s <> lower (current_word context)) rest.
Proof.
  intros Hmiss Hcw. unfold predict_rule_based, Cache.get. rewrite Hmiss.
  destruct (candidates _ _ _ _) as [[suggs table]|]; [|discriminate].
  rewrite Hcw. intros [= <- _].
  rewrite rank_suggestions_filters.
  set (cw := lower (current_word context)).
  set (kept := filter_suggestions suggs (current_word context)).
  assert (Hkept : Forall (fun s => startswith (lower s) cw = true) kept).
  { unfold kept, filter_suggestions. rewrite Hcw. cbn [negb].
    rewrite Forall_forall. intros s Hs. now apply filter_In in Hs. }
  split.
  - rewrite Forall_forall in *. intros s Hs.
    apply Hkept. repeat (apply in_app_or in Hs as [Hs|Hs]);
      apply filter_In in Hs; tauto.
  - exists (List.filter (is_exact cw) kept),
           (List.filter (is_prefix_only cw) kept
            ++ List.filter (is_other cw) kept).
    split; [reflexivity|]. split.
    + rewrite Forall_forall. intros s Hs. apply filter_In in Hs as [_ Hs].
      now apply String.eqb_eq in Hs.
    + rewrite Forall_forall. intros s Hs.
      apply in_app_or in Hs as [Hs|Hs]; apply filter_In in Hs as [_ Hs];
        unfold is_prefix_only, is_other, is_exact in Hs;
        apply andb_true_iff in Hs as [Hs _];
        apply negb_true_iff in Hs; now apply String.eqb_neq in Hs.
Qed.

(** On a cache hit the stored list is returned as it is, whatever the
    current word of the context. *)
Lemma predict_hit_returns_cached (fuel : nat) (tg tc tl : Z) (context : Context)
      (w : World) (entry : Cache.Entry) :
  dict_get (Cache.cache (w_cache w)) (create_cache_key context) = Some entry ->
  option_map fst (predict_rule_based fuel tg tc tl context w)
  = Some (get_or [] (Cache.suggestions entry)).
Proof.
  intros Hhit. unfold predict_rule_based, Cache.get. now rewrite Hhit.
Qed.

(** C1 (the code at the failing input).  [git commit -m] and [git commit -a]
    with the cursor before the last character have the key [git|commit|-] and
    the same candidates before filtering.  From an empty cache the list
    stored under that key is the list filtered by the current word of the
    call: [-m] for the first line, [-a] for the second, never the seven
    candidates. *)
Theorem cache_stores_filtered_list :
  exists ctx_m ctx_a w_m w_a,
    extract_command_context "git commit -m" 12 = Some ctx_m
    /\ extract_command_context "git commit -a" 12 = Some ctx_a
    /\ current_word ctx_m = "-m" /\ current_word ctx_a = "-a"
    /\ create_cache_key ctx_m = "git|commit|-"
    /\ create_cache_key ctx_a = "git|commit|-"
    /\ option_map fst (candidates 100 COMMANDS (command ctx_m) (subcommand ctx_m))
       = Some ["commit"; "-m"; "--message"; "--amend"; "--signoff"; "-a"; "--all"]
    /\ option_map fst (candidates 100 COMMANDS (command ctx_a) (subcommand ctx_a))
       = Some ["commit"; "-m"; "--message"; "--amend"; "--signoff"; "-a"; "--all"]
    /\ predict_rule_based 100 1 2 3 ctx_m (fresh_world None true)
       = Some (["-m"], w_m)
    /\ predict_rule_based 100 1 2 3 ctx_a (fresh_world None true)
       = Some (["-a"], w_a)
    /\ cached_under w_m "git|commit|-" = Some (Some ["-m"])
    /\ cached_under w_a "git|commit|-" = Some (Some ["-a"]).
Proof.
  do 4 eexists.
  repeat (split; [reflexivity|]). reflexivity.
Qed.

(** C2 (the code at the failing input).  After the prediction for
    [git commit -m] (current word [-m]) the prediction for [git commit -a]
    (current word [-a]) hits the cache and returns [-m], which does not
    start with [-a]. *)
Theorem cache_hit_skips_filter :
  exists ctx_m ctx_a w1 w2,
    extract_command_context "git commit -m" 12 = Some ctx_m
    /\ extract_command_context "git commit -a" 12 = Some ctx_a
    /\ current_word ctx_a = "-a"
    /\ predict_rule_based 100 1 2 3 ctx_m (fresh_world None true)
       = Some (["-m"], w1)
    /\ predict_rule_based 100 4 5 6 ctx_a w1 = Some (["-m"], w2)
    /\ startswith (lower "-m") (lower (current_word ctx_a)) = false.
Proof.
  do 4 eexists.
  repeat (split; [reflexivity|]). reflexivity.
Qed.

(** C6 (as amended).  For [git comm] with the cursor at 8, the end of the
    line, the context has the empty current word and subcommand [comm]; the
    declared subcommands of [git] that start with [comm] are [commit]; and
    on an empty cache, with any clock and fuel for eight visits of the
    extension loop, the prediction is [commit] followed by its six flags. *)
Theorem git_comm_scenario (k : nat) (tg tc tl : Z) (can_write : bool) :
  exists ctx,
    extract_command_context "git comm" 8 = Some ctx
    /\ current_word ctx = ""
    /\ command ctx = Some "git"
    /\ subcommand ctx = Some "comm"
    /\ option_map
         (fun cmd_data =>
            List.filter (fun s => startswith s "comm") (subcommands cmd_data))
         (dict_get COMMANDS "git")
       = Some ["commit"]
    /\ option_map fst
         (predict_rule_based (8 + k) tg tc tl ctx (fresh_world None can_write))
       = Some ["commit"; "-m"; "--message"; "--amend"; "--signoff"; "-a"; "--all"].
Proof.
  eexists. split; [reflexivity|].
  repeat (split; [reflexivity|]).
  reflexivity.
Qed.

(** C6 (as stated) fails: the current word of [git comm] at 8 is empty, not
    [comm], and the prediction is not the one-element list. *)
Lemma git_comm_counterexample :
  ~ (forall ctx,
       extract_command_context "git comm" 8 = Some ctx ->
       current_word ctx = "comm"
       /\ subcommand ctx = Some "comm"
       /\ option_map fst
            (predict_rule_based 100 1 2 3 ctx (fresh_world None true))
          = Some ["commit"]).
Proof.
  intros H. destruct (H _ eq_refl) as (Hcw & _ & Hp).
  vm_compute in Hcw. discriminate.
Qed.

End PredictorFacts.

(** ** The two context builders *)
Section ParserFacts.
Import Py Utils.

Lemma truthy_app_char (t : string) (c : ascii) : truthy (t ++ String c "") = true.
Proof. destruct t; reflexivity. Qed.

(** Inside the line the extractor does not raise, and its command,
    subcommand and arguments are read off the tokens of the prefix. *)
Lemma extract_defined (line : string) (cursor : Z) :
  (0 <= cursor <= Z.of_nat (length line))%Z ->
  exists ctx,
    extract_command_context line cursor = Some ctx
    /\ command ctx = nth_error (tokenize_command_line (slice_to cursor line)) 0
    /\ subcommand ctx = nth_error (tokenize_command_line (slice_to cursor line)) 1
    /\ args ctx = skipn 2 (tokenize_command_line (slice_to cursor line)).
Proof.
  intros Hc. unfold extract_command_context.
  destruct (truthy line) eqn:Hline.
  - replace (cursor <? 0)%Z with false by (symmetry; apply Z.ltb_ge; lia).
    cbn [negb orb]. cbv zeta.
    destruct (find_word_start_spec line (Z.to_nat cursor) (Z.to_nat cursor))
      as (ws & Hws & _); [lia|].
    destruct (find_word_end_spec line (length line - Z.to_nat cursor) (Z.to_nat cursor))
      as (we & Hwe & _); [lia|].
    rewrite Hws, Hwe.
    destruct (_ && _ && _).
    + destruct (0 <? Z.to_nat cursor) eqn:Hpos.
      * apply Nat.ltb_lt in Hpos.
        destruct (get_in_range line (Z.to_nat cursor - 1)) as [ch Hch]; [lia|].
        rewrite Hch. eexists. split; [reflexivity|]. cbn. auto.
      * eexists. split; [reflexivity|]. cbn. auto.
    + eexists. split; [reflexivity|]. cbn. auto.
  - cbn [negb orb]. exists empty_context. split; [reflexivity|].
    apply truthy_false in Hline. subst line. simpl in Hc.
    replace cursor with 0%Z by lia. cbn. auto.
Qed.

(** C9 (as stated) fails: in [git a\ b] the backslash escapes the space for
    [shlex], which gives the subcommand [a b] and no arguments, while the
    tokenizer of [utils] splits at the space. *)
Lemma parse_extract_disagree_counterexample :
  ~ (forall ctx,
       extract_command_context "git a\ b" 8 = Some ctx ->
       ContextParser.command (ContextParser.parse_context "git a\ b" 8)
       = command ctx
       /\ ContextParser.subcommand (ContextParser.parse_context "git a\ b" 8)
          = subcommand ctx
       /\ ContextParser.args (ContextParser.parse_context "git a\ b" 8)
          = args ctx).
Proof.
  intros H. destruct (H _ eq_refl) as (_ & _ & Ha).
  vm_compute in Ha. discriminate.
Qed.

End ParserFacts.

(** ** More on the tokenizer and the extractor *)
Section TokenizerFacts.
Import Py Utils.

Lemma tokenize_loop_tokens (whole rest : string) :
  (forall c, has_char c rest = true -> has_char c whole = true) ->
  forall toks cur inq qc,
    Forall (fun t => truthy t = true
                     /\ forall c, has_char c t = true -> has_char c whole = true)
           toks ->
    (forall c, has_char c cur = true -> has_char c whole = true) ->
    Forall (fun t => truthy t = true
                     /\ forall c, has_char c t = true -> has_char c whole = true)
           (tokenize_loop rest toks cur inq qc).
Proof.
  induction rest as [|ch rest IH]; intros Hsub toks cur inq qc Ht Hc; simpl.
  - destruct (truthy cur) eqn:Hcur; [|exact Ht].
    apply Forall_app; split; [exact Ht|]. repeat constructor; assumption.
  - assert (Hrest : forall c, has_char c rest = true -> has_char c whole = true).
    { intros c H. apply Hsub. simpl. rewrite H. apply orb_true_r. }
    assert (Hcur' : forall c, has_char c (cur ++ String ch "") = true ->
                              has_char c whole = true).
    { intros c H. rewrite has_char_app in H. apply orb_true_iff in H as [H|H].
      - now apply Hc.
      - apply Hsub. simpl in *. rewrite orb_false_r in H. now rewrite H. }
    assert (Hpush : truthy cur = true ->
                    Forall (fun t => truthy t = true
                                     /\ forall c, has_char c t = true ->
                                                  has_char c whole = true)
                           (toks ++ [cur])).
    { intros Hcur. apply Forall_app; split; [exact Ht|].
      repeat constructor; assumption. }
    assert (Hempty : forall c, has_char c "" = true -> has_char c whole = true)
      by (intros c H; discriminate).
    repeat match goal with
           | |- context [if ?b then _ else _] => destruct b eqn:?
           end; apply IH; auto.
Qed.

(** X1.  Whatever the line, quoted or not, the tokenizer never returns an
    empty token, and every character of a token is a character of the
    line. *)
Theorem tokenize_tokens_nonempty (line : string) :
  Forall (fun t => t <> ""
                   /\ forall c, has_char c t = true -> has_char c line = true)
         (tokenize_command_line line).
Proof.
  unfold tokenize_command_line. destruct (truthy line); cbn [negb]; [|constructor].
  eapply Forall_impl; [|apply (tokenize_loop_tokens line line)]; auto.
  - intros t [Ht Hc]. split; [|exact Hc]. intros ->. discriminate.
  - intros c H. discriminate.
Qed.

Lemma tokenize_loop_split (s : string) :
  has_char dquote s = false -> has_char squote s = false ->
  forall toks cur,
    tokenize_loop s toks cur false None = toks ++ split_ws s cur.
Proof.
  induction s as [|ch s IH]; intros Hd Hs toks cur; simpl.
  - now destruct (truthy cur); rewrite ?app_nil_r.
  - simpl in Hd, Hs. apply orb_false_iff in Hd as [Hd Hd'].
    apply orb_false_iff in Hs as [Hs Hs']. rewrite Hd, Hs. cbn [orb negb].
    rewrite andb_true_r. destruct (isspace ch).
    + destruct (truthy cur) eqn:Hcur.
      * rewrite IH by assumption. now rewrite <- app_assoc.
      * rewrite IH by assumption. apply truthy_false in Hcur. now subst cur.
    + now apply IH.
Qed.

(** X2.  On a line without quote characters the tokenizer is Python's
    [str.split()]: the maximal runs of non-whitespace characters. *)
Theorem tokenize_quote_free_is_split (line : string) :
  has_char dquote line = false -> has_char squote line = false ->
  tokenize_command_line line = Py.split line.
Proof.
  intros Hd Hs. unfold tokenize_command_line, Py.split.
  destruct line as [|c r]; [reflexivity|]. cbn [truthy negb].
  now rewrite tokenize_loop_split.
Qed.

(** X2 witness. *)
Lemma tokenize_quote_free_is_split_witness :
  tokenize_command_line "git  commit -m" = Py.split "git  commit -m".
Proof. apply tokenize_quote_free_is_split; reflexivity. Defined.

(** What a character of [valid_chars] is not. *)
Lemma valid_char_plain (c : ascii) :
  UtilsRest.char_in c UtilsRest.valid_chars = true ->
  isspace c = false /\ (c =? dquote)%char = false /\ (c =? squote)%char = false
  /\ (c =? backslash)%char = false /\ UtilsRest.is_control c = false.
Proof.
  destruct c as [b0 b1 b2 b3 b4 b5 b6 b7].
  destruct b0, b1, b2, b3, b4, b5, b6, b7; vm_compute; intros H;
    try discriminate H; repeat split.
Qed.

Lemma split_ws_word (s cur : string) :
  UtilsRest.all_of (fun c => negb (isspace c)) s = true ->
  split_ws s cur = if truthy (cur ++ s) then [(cur ++ s)%string] else [].
Proof.
  revert cur; induction s as [|c s IH]; intros cur H; simpl.
  - replace (cur ++ "")%string with cur; [reflexivity|].
    clear. induction cur; simpl; congruence.
  - simpl in H. apply andb_true_iff in H as [Hc Hs].
    apply negb_true_iff in Hc. rewrite Hc, IH by exact Hs.
    replace ((cur ++ String c "") ++ s)%string with (cur ++ String c s)%string;
      [reflexivity|].
    clear. induction cur; simpl; congruence.
Qed.

Lemma all_of_impl (p q : ascii -> bool) (s : string) :
  (forall c, p c = true -> q c = true) ->
  UtilsRest.all_of p s = true -> UtilsRest.all_of q s = true.
Proof.
  intros Hpq. induction s as [|c s IH]; simpl; [auto|].
  intros H. apply andb_true_iff in H as [Hc Hs].
  rewrite (Hpq _ Hc), IH; auto.
Qed.

Lemma all_of_has_char (p : ascii -> bool) (s : string) (c : ascii) :
  UtilsRest.all_of p s = true -> p c = false -> has_char c s = false.
Proof.
  intros H Hc. induction s as [|a s IH]; simpl in *; [reflexivity|].
  apply andb_true_iff in H as [Ha Hs]. rewrite IH by exact Hs.
  destruct (Ascii.eqb_spec a c) as [->|]; [congruence | reflexivity].
Qed.

(** X3.  A command name accepted by [is_valid_command] is one word for the
    tokenizer and needs no escaping: the tokenizer returns it as its only
    token and [sanitize_suggestion] returns it unchanged. *)
Theorem valid_command_single_token (cmd : string) :
  UtilsRest.is_valid_command cmd = true ->
  tokenize_command_line cmd = [cmd]
  /\ UtilsRest.sanitize_suggestion cmd = cmd.
Proof.
  unfold UtilsRest.is_valid_command. intros H.
  destruct (truthy cmd) eqn:Hne; cbn [negb] in H; [|discriminate].
  assert (Hplain : forall p, (forall c, UtilsRest.char_in c UtilsRest.valid_chars = true ->
                                        p c = true) ->
                             UtilsRest.all_of p cmd = true).
  { intros p Hp. eapply all_of_impl; [exact Hp | exact H]. }
  split.
  - unfold tokenize_command_line. rewrite Hne. cbn [negb].
    rewrite tokenize_loop_split.
    + rewrite split_ws_word.
      * cbn. now rewrite Hne.
      * apply Hplain. intros c Hc. apply valid_char_plain in Hc as [-> _]. reflexivity.
    + apply (all_of_has_char (fun c => negb (c =? dquote)%char)).
      * apply Hplain. intros c Hc.
        apply valid_char_plain in Hc as (_ & -> & _). reflexivity.
      * now rewrite Ascii.eqb_refl.
    + apply (all_of_has_char (fun c => negb (c =? squote)%char)).
      * apply Hplain. intros c Hc.
        apply valid_char_plain in Hc as (_ & _ & -> & _). reflexivity.
      * now rewrite Ascii.eqb_refl.
  - unfold UtilsRest.sanitize_suggestion. rewrite Hne. cbn [negb]. cbv zeta.
    clear Hne Hplain. induction cmd as [|c cmd IH]; [reflexivity|].
    simpl in H. apply andb_true_iff in H as [Hc Hs].
    apply valid_char_plain in Hc as (_ & Hd & Hq & Hb & Hctl).
    cbn [UtilsRest.remove_controls]. rewrite Hctl.
    cbn [UtilsRest.replace_char]. rewrite Hb.
    cbn [UtilsRest.replace_char]. rewrite Hd.
    cbn [UtilsRest.replace_char]. rewrite Hq.
    f_equal. now apply IH.
Qed.

(** X3 witness. *)
Lemma valid_command_single_token_witness :
  tokenize_command_line "git-log_2" = ["git-log_2"]
  /\ UtilsRest.sanitize_suggestion "git-log_2" = "git-log_2".
Proof. apply valid_command_single_token. reflexivity. Defined.

End TokenizerFacts.

(** ** More on the context extractor *)
Section ExtractorFacts.
Import Py Utils.

Lemma get_out_of_range (s : string) (i : nat) :
  length s <= i -> get i s = None.
Proof.
  revert i; induction s as [|a s IH]; intros i Hi; simpl in *.
  - now destruct i.
  - destruct i as [|i]; [lia|]. apply IH. lia.
Qed.

(** X4.  The extractor raises (an [IndexError]) exactly when the line is
    not empty and the cursor is beyond its end; a negative cursor and an
    empty line never raise. *)
Theorem extract_raises_iff (line : string) (cursor : Z) :
  extract_command_context line cursor = None
  <-> line <> "" /\ (Z.of_nat (length line) < cursor)%Z.
Proof.
  split.
  - intros Hnone. destruct line as [|a line'] eqn:Hline; [discriminate|].
    rewrite <- Hline in *. split; [subst; discriminate|].
    destruct (Z.ltb_spec cursor 0) as [Hneg|Hpos].
    + unfold extract_command_context in Hnone.
      replace (cursor <? 0)%Z with true in Hnone by (symmetry; apply Z.ltb_lt; lia).
      rewrite orb_true_r in Hnone. discriminate.
    + destruct (Z.leb_spec cursor (Z.of_nat (length line))) as [Hle|Hgt]; [|exact Hgt].
      destruct (extract_defined line cursor) as (ctx & He & _); [lia|]. congruence.
  - intros [Hne Hgt]. unfold extract_command_context.
    destruct line as [|a line'] eqn:Hline; [congruence|]. rewrite <- Hline in *.
    replace (truthy line) with true by (subst; reflexivity).
    replace (cursor <? 0)%Z with false by (symmetry; apply Z.ltb_ge; lia).
    cbn [negb orb]. cbv zeta.
    destruct (Z.to_nat cursor) as [|i] eqn:Hc; [lia|].
    cbn [find_word_start]. rewrite get_out_of_range by lia. reflexivity.
Qed.

Lemma find_word_start_delimited (line : string) (n : nat) :
  forall r, find_word_start line n n = Some r ->
    (forall i, r <= i < n -> exists ch, get i line = Some ch /\ isspace ch = false)
    /\ (r = 0 \/ exists ch, get (r - 1) line = Some ch /\ isspace ch = true).
Proof.
  induction n as [|i IH]; intros r Hr; simpl in Hr.
  - injection Hr as <-. split; [intros i Hi; lia | now left].
  - destruct (get i line) as [ch|] eqn:Hch; [|discriminate].
    destruct (isspace ch) eqn:Hsp.
    + injection Hr as <-. split; [intros j Hj; lia|].
      right. exists ch. now replace (i + 1 - 1) with i by lia.
    + assert (Hr' : find_word_start line i i = Some r)
        by (destruct i; exact Hr).
      destruct (IH r Hr') as [Hin Hdel]. split; [|exact Hdel].
      intros j Hj. destruct (Nat.eq_dec j i) as [->|Hne]; [eauto|].
      apply Hin. lia.
Qed.

Lemma find_word_end_delimited (line : string) (k : nat) :
  forall i r, i + k = length line -> find_word_end line k i i = Some r ->
    (forall j, i <= j < r -> exists ch, get j line = Some ch /\ isspace ch = false)
    /\ (r = length line \/ exists ch, get r line = Some ch /\ isspace ch = true).
Proof.
  induction k as [|k IH]; intros i r Hlen Hr; simpl in Hr.
  - injection Hr as <-. split; [intros j Hj; lia | left; lia].
  - destruct (get i line) as [ch|] eqn:Hch; [|discriminate].
    destruct (isspace ch) eqn:Hsp.
    + injection Hr as <-. split; [intros j Hj; lia | right; eauto].
    + destruct (IH (S i) r ltac:(lia) Hr) as [Hin Hdel]. split; [|exact Hdel].
      intros j Hj. destruct (Nat.eq_dec j i) as [->|Hne]; [eauto|].
      apply Hin. lia.
Qed.

(** The word offsets of a context are the results of the two loops. *)
Lemma extract_offsets (line : string) (cursor : Z) (ctx : Context) :
  truthy line = true -> (0 <= cursor)%Z ->
  extract_command_context line cursor = Some ctx ->
  exists ws we,
    find_word_start line (Z.to_nat cursor) (Z.to_nat cursor) = Some ws
    /\ find_word_end line (length line - Z.to_nat cursor) (Z.to_nat cursor)
                     (Z.to_nat cursor) = Some we
    /\ word_start ctx = Z.of_nat ws /\ word_end ctx = Z.of_nat we.
Proof.
  intros Hline Hc. unfold extract_command_context. rewrite Hline.
  replace (cursor <? 0)%Z with false by (symmetry; apply Z.ltb_ge; lia).
  cbn [negb orb]. cbv zeta.
  destruct (find_word_start _ _ _) as [ws|]; [|discriminate].
  destruct (find_word_end _ _ _ _) as [we|]; [|discriminate].
  match goal with
  | |- match ?e with _ => _ end = _ -> _ => destruct e; [|discriminate]
  end.
  intros [= <-]. exists ws, we. cbn. auto.
Qed.

(** X5.  For a cursor inside the line, [word_start] and [word_end] bracket
    a maximal run without whitespace: no character of
    [line[word_start:word_end]] is whitespace, [word_start] is 0 or follows
    a whitespace character, and [word_end] is the length of the line or the
    offset of a whitespace character. *)
Theorem extract_word_delimited (line : string) (cursor : Z) (ctx : Context) :
  (0 <= cursor <= Z.of_nat (length line))%Z ->
  extract_command_context line cursor = Some ctx ->
  (forall i, Z.to_nat (word_start ctx) <= i < Z.to_nat (word_end ctx) ->
             exists ch, get i line = Some ch /\ isspace ch = false)
  /\ (word_start ctx = 0%Z
      \/ exists ch, get (Z.to_nat (word_start ctx) - 1) line = Some ch
                    /\ isspace ch = true)
  /\ (word_end ctx = Z.of_nat (length line)
      \/ exists ch, get (Z.to_nat (word_end ctx)) line = Some ch
                    /\ isspace ch = true).
Proof.
  intros Hc He. destruct (truthy line) eqn:Hline.
  - destruct (extract_offsets line cursor ctx Hline ltac:(lia) He)
      as (ws & we & Hws & Hwe & -> & ->).
    rewrite !Nat2Z.id.
    destruct (find_word_start_delimited _ _ _ Hws) as [Hin1 Hd1].
    assert (Hsum : Z.to_nat cursor + (length line - Z.to_nat cursor) = length line)
      by lia.
    destruct (find_word_end_delimited _ _ _ _ Hsum Hwe) as [Hin2 Hd2].
    split; [|split].
    + intros i Hi. destruct (Nat.lt_ge_cases i (Z.to_nat cursor)).
      * apply Hin1. lia.
      * apply Hin2. lia.
    + destruct Hd1 as [->|Hd1]; [now left | now right].
    + destruct Hd2 as [->|Hd2]; [now left | now right].
  - apply truthy_false in Hline. subst line. cbn in He. injection He as <-.
    cbn. split; [intros i Hi; lia|]. split; now left.
Qed.

(** X5 witness: the cursor inside [commit] in [git commit -m]. *)
Lemma extract_word_delimited_witness :
  exists ctx,
    extract_command_context "git commit -m" 6 = Some ctx
    /\ word_start ctx = 4%Z /\ word_end ctx = 10%Z
    /\ (forall i, Z.to_nat (word_start ctx) <= i < Z.to_nat (word_end ctx) ->
                  exists ch, get i "git commit -m" = Some ch /\ isspace ch = false).
Proof.
  eexists. split; [reflexivity|]. split; [reflexivity|]. split; [reflexivity|].
  apply (extract_word_delimited "git commit -m" 6); [simpl; lia | reflexivity].
Defined.

End ExtractorFacts.

(** ** More on filtering and ranking *)
Section RankFacts.
Import Py Utils.

Lemma lower_char_idempotent (c : ascii) : lower_char (lower_char c) = lower_char c.
Proof.
  destruct c as [b0 b1 b2 b3 b4 b5 b6 b7].
  destruct b0, b1, b2, b3, b4, b5, b6, b7; reflexivity.
Qed.

Lemma lower_idempotent (s : string) : lower (lower s) = lower s.
Proof.
  induction s as [|c s IH]; simpl; [reflexivity|].
  now rewrite lower_char_idempotent, IH.
Qed.

Lemma truthy_lower (s : string) : truthy (lower s) = truthy s.
Proof. now destruct s. Qed.

(** X6.  Filtering ignores the case of the current word: two words with the
    same lower-case form keep the same suggestions. *)
Theorem filter_ignores_word_case (suggestions : list string) (w1 w2 : string) :
  lower w1 = lower w2 ->
  filter_suggestions suggestions w1 = filter_suggestions suggestions w2.
Proof.
  intros H. unfold filter_suggestions.
  rewrite <- (truthy_lower w1), <- (truthy_lower w2), H. reflexivity.
Qed.

(** X6 witness. *)
Lemma filter_ignores_word_case_witness :
  filter_suggestions ["commit"; "Checkout"; "push"] "CO"
  = filter_suggestions ["commit"; "Checkout"; "push"] "co".
Proof. apply filter_ignores_word_case. reflexivity. Defined.

Lemma filter_true_id {A} (p : A -> bool) (l : list A) :
  (forall x, In x l -> p x = true) -> List.filter p l = l.
Proof.
  induction l as [|x l IH]; intros H; simpl; [reflexivity|].
  rewrite (H x (or_introl eq_refl)). f_equal. apply IH. intros y Hy. apply H. now right.
Qed.

Lemma filter_false_nil {A} (p : A -> bool) (l : list A) :
  (forall x, In x l -> p x = false) -> List.filter p l = [].
Proof.
  induction l as [|x l IH]; intros H; simpl; [reflexivity|].
  rewrite (H x (or_introl eq_refl)). apply IH. intros y Hy. apply H. now right.
Qed.

(** The three bucket tests split every suggestion into exactly one bucket. *)
Lemma buckets_partition (cw s : string) :
  (is_exact cw s = true /\ is_prefix_only cw s = false /\ is_other cw s = false)
  \/ (is_exact cw s = false /\ is_prefix_only cw s = true /\ is_other cw s = false)
  \/ (is_exact cw s = false /\ is_prefix_only cw s = false /\ is_other cw s = true).
Proof.
  unfold is_prefix_only, is_other.
  destruct (is_exact cw s), (startswith (lower s) cw); cbn; tauto.
Qed.

Lemma three_filters_permutation (cw : string) (l : list string) :
  Permutation l (List.filter (is_exact cw) l
                 ++ List.filter (is_prefix_only cw) l
                 ++ List.filter (is_other cw) l).
Proof.
  induction l as [|s l IH]; simpl; [constructor|].
  destruct (buckets_partition cw s) as [(-> & -> & ->)|[(-> & -> & ->)|(-> & -> & ->)]].
  - simpl. now constructor.
  - apply Permutation_cons_app. exact IH.
  - rewrite app_assoc. apply Permutation_cons_app. rewrite <- app_assoc. exact IH.
Qed.

(** X7.  Ranking only reorders: its result is a permutation of its input,
    so no suggestion is lost, added or repeated. *)
Theorem rank_is_permutation (suggestions : list string) (context : Context) :
  Permutation suggestions (rank_suggestions suggestions context).
Proof. rewrite rank_suggestions_filters. apply three_filters_permutation. Qed.

(** X8.  Ranking a ranked list changes nothing. *)
Theorem rank_idempotent (suggestions : list string) (context : Context) :
  rank_suggestions (rank_suggestions suggestions context) context
  = rank_suggestions suggestions context.
Proof.
  rewrite !rank_suggestions_filters.
  set (cw := lower (current_word context)).
  set (E := List.filter (is_exact cw) suggestions).
  set (P := List.filter (is_prefix_only cw) suggestions).
  set (O := List.filter (is_other cw) suggestions).
  assert (HE : forall x, In x E -> is_exact cw x = true)
    by (intros x Hx; now apply filter_In in Hx).
  assert (HP : forall x, In x P -> is_prefix_only cw x = true)
    by (intros x Hx; now apply filter_In in Hx).
  assert (HO : forall x, In x O -> is_other cw x = true)
    by (intros x Hx; now apply filter_In in Hx).
  assert (Hex : forall x, is_exact cw x = true ->
                          is_prefix_only cw x = false /\ is_other cw x = false).
  { intros x Hx. destruct (buckets_partition cw x) as [H|[H|H]];
      destruct H as (H1 & H2 & H3); split; congruence. }
  assert (Hpr : forall x, is_prefix_only cw x = true ->
                          is_exact cw x = false /\ is_other cw x = false).
  { intros x Hx. destruct (buckets_partition cw x) as [H|[H|H]];
      destruct H as (H1 & H2 & H3); split; congruence. }
  assert (Hot : forall x, is_other cw x = true ->
                          is_exact cw x = false /\ is_prefix_only cw x = false).
  { intros x Hx. destruct (buckets_partition cw x) as [H|[H|H]];
      destruct H as (H1 & H2 & H3); split; congruence. }
  rewrite !filter_app.
  rewrite (filter_true_id (is_exact cw) E) by exact HE.
  rewrite (filter_false_nil (is_exact cw) P) by (intros x Hx; now apply Hpr, HP).
  rewrite (filter_false_nil (is_exact cw) O) by (intros x Hx; now apply Hot, HO).
  rewrite (filter_false_nil (is_prefix_only cw) E) by (intros x Hx; now apply Hex, HE).
  rewrite (filter_true_id (is_prefix_only cw) P) by exact HP.
  rewrite (filter_false_nil (is_prefix_only cw) O) by (intros x Hx; now apply Hot, HO).
  rewrite (filter_false_nil (is_other cw) E) by (intros x Hx; now apply Hex, HE).
  rewrite (filter_false_nil (is_other cw) P) by (intros x Hx; now apply Hpr, HP).
  rewrite (filter_true_id (is_other cw) O) by exact HO.
  now rewrite !app_nil_r.
Qed.

(** X9.  With an empty current word ranking returns the list as it is,
    provided no suggestion is the empty string. *)
Theorem rank_empty_word_noop (suggestions : list string) (context : Context) :
  current_word context = "" ->
  ~ In "" suggestions ->
  rank_suggestions suggestions context = suggestions.
Proof.
  intros Hcw Hne. rewrite rank_suggestions_filters, Hcw. cbn [lower].
  assert (Hex : forall x, In x suggestions -> is_exact "" x = false).
  { intros x Hx. unfold is_exact. apply String.eqb_neq. intros Hl.
    destruct x; [contradiction | discriminate]. }
  rewrite (filter_false_nil (is_exact "")) by exact Hex.
  rewrite (filter_true_id (is_prefix_only "")).
  - rewrite (filter_false_nil (is_other "")); [now rewrite app_nil_r|].
    intros x Hx. unfold is_other. rewrite (Hex x Hx). now destruct (lower x).
  - intros x Hx. unfold is_prefix_only. rewrite (Hex x Hx). now destruct (lower x).
Qed.

(** X9 witness. *)
Lemma rank_empty_word_noop_witness :
  rank_suggestions ["push"; "add"; "Add"] empty_context = ["push"; "add"; "Add"].
Proof.
  apply rank_empty_word_noop; [reflexivity|].
  simpl. intros [H|[H|[H|[]]]]; discriminate.
Defined.

End RankFacts.

(** ** [sanitize_suggestion] and [normalize_command] *)
Section SanitizeFacts.
Import Py UtilsRest.

(** The three [replace] calls, in their order, escape in one pass. *)
Lemma replaces_escape_all (t : string) :
  replace_char squote (String backslash (String squote ""))
    (replace_char dquote (String backslash (String dquote ""))
       (replace_char backslash (String backslash (String backslash "")) t))
  = escape_all t.
Proof.
  induction t as [|c t IH]; [reflexivity|].
  cbn [replace_char escape_all]. unfold needs_escape.
  destruct (Ascii.eqb_spec c backslash) as [->|Hb].
  - cbn. now rewrite IH.
  - destruct (Ascii.eqb_spec c dquote) as [->|Hd].
    + cbn. now rewrite IH.
    + cbn [replace_char]. apply Ascii.eqb_neq in Hd. rewrite Hd.
      cbn [replace_char orb].
      destruct (Ascii.eqb_spec c squote) as [->|Hs].
      * cbn. now rewrite IH.
      * now rewrite IH.
Qed.

Lemma sanitize_one_pass (s : string) :
  sanitize_suggestion s = escape_all (remove_controls s).
Proof.
  unfold sanitize_suggestion. destruct s as [|c s]; [reflexivity|].
  cbn [truthy negb]. cbv zeta. apply replaces_escape_all.
Qed.

Lemma escape_all_well_escaped (t : string) : well_escaped (escape_all t) = true.
Proof.
  induction t as [|c t IH]; [reflexivity|].
  cbn [escape_all]. unfold needs_escape.
  destruct (Ascii.eqb_spec c backslash) as [->|Hb]; [exact IH|].
  destruct (c =? dquote)%char eqn:Hd; [exact IH|].
  destruct (c =? squote)%char eqn:Hs; [exact IH|].
  cbn [orb well_escaped]. apply Ascii.eqb_neq in Hb. now rewrite Hb, Hd, Hs.
Qed.

Lemma escape_all_no_control (t : string) :
  all_of (fun c => negb (is_control c)) t = true ->
  all_of (fun c => negb (is_control c)) (escape_all t) = true.
Proof.
  induction t as [|c t IH]; [reflexivity|]. cbn [all_of escape_all].
  intros H. apply andb_true_iff in H as [Hc Ht].
  destruct (needs_escape c); cbn [all_of]; rewrite Hc, IH by exact Ht; reflexivity.
Qed.

Lemma remove_controls_no_control (s : string) :
  all_of (fun c => negb (is_control c)) (remove_controls s) = true.
Proof.
  induction s as [|c s IH]; [reflexivity|]. cbn [remove_controls].
  destruct (is_control c) eqn:Hc; [exact IH|]. cbn [all_of]. now rewrite Hc, IH.
Qed.

(** X10.  The result of [sanitize_suggestion] holds no control character,
    and every quote and backslash of it is escaped: read from the left, a
    backslash always takes a following character and no quote stands
    without a backslash before it. *)
Theorem sanitize_is_safe (suggestion : string) :
  all_of (fun c => negb (is_control c)) (sanitize_suggestion suggestion) = true
  /\ well_escaped (sanitize_suggestion suggestion) = true.
Proof.
  rewrite sanitize_one_pass. split.
  - apply escape_all_no_control, remove_controls_no_control.
  - apply escape_all_well_escaped.
Qed.

Lemma escape_all_injective (t1 t2 : string) :
  escape_all t1 = escape_all t2 -> t1 = t2.
Proof.
  revert t2; induction t1 as [|a t1 IH]; intros [|b t2] H; cbn [escape_all] in H.
  - reflexivity.
  - destruct (needs_escape b); discriminate.
  - destruct (needs_escape a); discriminate.
  - destruct (needs_escape a) eqn:Ha, (needs_escape b) eqn:Hb.
    + injection H as -> H. f_equal. now apply IH.
    + injection H as <- _. discriminate Hb.
    + injection H as -> _. discriminate Ha.
    + injection H as -> H. f_equal. now apply IH.
Qed.

(** X11.  Sanitizing loses nothing but the control characters: two
    suggestions with the same sanitized form are equal once their control
    characters are removed. *)
Theorem sanitize_injective (s1 s2 : string) :
  sanitize_suggestion s1 = sanitize_suggestion s2 ->
  remove_controls s1 = remove_controls s2.
Proof. rewrite !sanitize_one_pass. apply escape_all_injective. Qed.

(** X11 witness: a tab inside one of two suggestions. *)
Lemma sanitize_injective_witness :
  remove_controls (String "a" (String tab_char "b")) = remove_controls "ab".
Proof. apply sanitize_injective. reflexivity. Defined.

End SanitizeFacts.

Section NormalizeFacts.
Import Py UtilsRest.

Lemma rstrip_last (s : string) (ch : ascii) :
  last_char (ContextParser.rstrip s) = Some ch -> isspace ch = false.
Proof.
  induction s as [|c s IH]; cbn [ContextParser.rstrip]; [discriminate|].
  destruct (ContextParser.rstrip s) as [|c' r'] eqn:Hr.
  - destruct (isspace c) eqn:Hc; cbn; [discriminate|]. now intros [= <-].
  - intros H. apply IH. exact H.
Qed.

Lemma lstrip_first (s : string) (c : ascii) (r : string) :
  ContextParser.lstrip s = String c r -> isspace c = false.
Proof.
  induction s as [|a s IH]; cbn [ContextParser.lstrip]; [discriminate|].
  destruct (isspace a) eqn:Ha; [exact IH|]. now intros [= <- _].
Qed.

Lemma lstrip_last (s : string) (ch : ascii) :
  last_char (ContextParser.lstrip s) = Some ch -> last_char s = Some ch.
Proof.
  induction s as [|a s IH]; cbn [ContextParser.lstrip]; [discriminate|].
  destruct (isspace a); [|auto].
  intros H. specialize (IH H). destruct s; [discriminate | exact IH].
Qed.

Lemma strip_trimmed (s : string) : trimmed (ContextParser.strip s).
Proof.
  unfold ContextParser.strip. split.
  - intros c r H. eapply lstrip_first; exact H.
  - intros ch H. apply lstrip_last in H. eapply rstrip_last; exact H.
Qed.

Lemma drop_sudo_trimmed (s : string) : trimmed s -> trimmed (drop_sudo s).
Proof.
  intros [Hfirst Hlast]. unfold drop_sudo.
  destruct (prefix "sudo" s); [|now split].
  destruct (substring 4 (length s - 4) s) as [|c r] eqn:Hsub; [now split|].
  destruct (isspace c); [|now split].
  assert (Hlen : 4 < length s).
  { destruct (Nat.lt_ge_cases 4 (length s)) as [H|H]; [exact H|].
    replace (length s - 4) with 0 in Hsub by lia.
    rewrite substring_zero_length in Hsub. discriminate. }
  split.
  - intros a r' H. eapply lstrip_first; exact H.
  - intros ch H. apply lstrip_last in H. rewrite <- Hsub in H.
    rewrite last_char_suffix in H by exact Hlen. now apply Hlast.
Qed.

Lemma collapse_spaced (s : string) (b : bool) :
  (forall ch, last_char s = Some ch -> isspace ch = false) ->
  s <> "" ->
  spaced (collapse_ws s b) b = true.
Proof.
  revert b; induction s as [|c s IH]; intros b Hlast Hne; [congruence|].
  destruct s as [|c' s'].
  - assert (Hc : isspace c = false) by (apply Hlast; reflexivity).
    cbn [collapse_ws]. rewrite Hc. cbn [spaced]. now rewrite Hc.
  - assert (Hlast' : forall ch, last_char (String c' s') = Some ch -> isspace ch = false)
      by (intros ch H; apply Hlast; exact H).
    assert (Ht : String c' s' <> "") by discriminate.
    remember (String c' s') as t eqn:Et. clear Et.
    cbn [collapse_ws]. destruct (isspace c) eqn:Hc.
    + destruct b.
      * now apply IH.
      * cbn [spaced]. replace (isspace " ") with true by reflexivity.
        rewrite Ascii.eqb_refl. cbn [negb andb]. now apply IH.
    + cbn [spaced]. rewrite Hc. now apply IH.
Qed.

Lemma collapse_tidy (s : string) : trimmed s -> tidy (collapse_ws s false) = true.
Proof.
  intros [Hfirst Hlast]. destruct s as [|c s]; [reflexivity|].
  assert (Hc : isspace c = false) by (eapply Hfirst; reflexivity).
  cbn [collapse_ws]. rewrite Hc. cbn [tidy spaced]. rewrite Hc.
  destruct s as [|c' s']; [reflexivity|].
  assert (Hl : forall ch, last_char (String c' s') = Some ch -> isspace ch = false)
    by (intros ch H; apply Hlast; exact H).
  assert (Ht : String c' s' <> "") by discriminate.
  remember (String c' s') as t eqn:Et. clear Et.
  now apply collapse_spaced.
Qed.

Lemma lowered_lower (s : string) : lowered (lower s).
Proof.
  unfold lowered. induction s as [|c s IH]; [reflexivity|]. cbn.
  now rewrite lower_char_idempotent, Ascii.eqb_refl, IH.
Qed.

Lemma lowered_fixed (s : string) : lowered s -> lower s = s.
Proof.
  unfold lowered. induction s as [|c s IH]; [reflexivity|]. cbn.
  intros H. apply andb_true_iff in H as [Hc Hs].
  apply Ascii.eqb_eq in Hc. now rewrite Hc, IH.
Qed.

Lemma lowered_substring (s : string) (a n : nat) :
  lowered s -> lowered (substring a n s).
Proof.
  unfold lowered. revert a n; induction s as [|c s IH]; intros a n H.
  - now destruct a, n.
  - cbn in H. apply andb_true_iff in H as [Hc Hs].
    destruct a as [|a]; [destruct n as [|n]|]; cbn; auto.
    now rewrite Hc, IH.
Qed.

Lemma lowered_lstrip (s : string) : lowered s -> lowered (ContextParser.lstrip s).
Proof.
  unfold lowered. induction s as [|c s IH]; [auto|]. cbn [ContextParser.lstrip].
  intros H. destruct (isspace c); [|exact H].
  cbn in H. apply andb_true_iff in H as [_ Hs]. now apply IH.
Qed.

Lemma lowered_rstrip (s : string) : lowered s -> lowered (ContextParser.rstrip s).
Proof.
  unfold lowered. induction s as [|c s IH]; [auto|]. cbn [ContextParser.rstrip].
  intros H. cbn in H. apply andb_true_iff in H as [Hc Hs]. specialize (IH Hs).
  destruct (ContextParser.rstrip s) as [|c' r'].
  - destruct (isspace c); cbn; [reflexivity | now rewrite Hc].
  - cbn [all_of] in *. rewrite Hc. exact IH.
Qed.

Lemma lowered_drop_sudo (s : string) : lowered s -> lowered (drop_sudo s).
Proof.
  intros H. unfold drop_sudo. destruct (prefix "sudo" s); [|exact H].
  pose proof (lowered_substring s 4 (length s - 4) H) as Hsub.
  destruct (substring 4 (length s - 4) s) as [|c r]; [exact H|].
  destruct (isspace c); [|exact H]. now apply lowered_lstrip.
Qed.

Lemma lowered_collapse (s : string) (b : bool) :
  lowered s -> lowered (collapse_ws s b).
Proof.
  unfold lowered. revert b; induction s as [|c s IH]; intros b H; [reflexivity|].
  cbn in H. apply andb_true_iff in H as [Hc Hs]. cbn [collapse_ws].
  destruct (isspace c); [destruct b|].
  - now apply IH.
  - cbn [all_of]. now rewrite IH.
  - cbn [all_of]. now rewrite Hc, IH.
Qed.

(** X12.  A normalized command is in lower case and tidy: it neither starts
    nor ends with whitespace, and its only whitespace characters are single
    spaces between words. *)
Theorem normalize_command_tidy (command : string) :
  tidy (normalize_command command) = true
  /\ lower (normalize_command command) = normalize_command command.
Proof.
  unfold normalize_command. destruct (truthy command); cbn [negb]; [|now split].
  cbv zeta. split.
  - apply collapse_tidy, drop_sudo_trimmed, strip_trimmed.
  - apply lowered_fixed, lowered_collapse, lowered_drop_sudo.
    unfold ContextParser.strip. apply lowered_lstrip, lowered_rstrip, lowered_lower.
Qed.

End NormalizeFacts.

(** ** More on dictionaries *)
Section DictMoreFacts.
Import Py.
Context {V : Type}.
Implicit Types (d : dict V) (k : string) (v : V).

Lemma dict_get_in d k v : dict_get d k = Some v -> In (k, v) d.
Proof.
  induction d as [|[k0 v0] d IH]; simpl; [discriminate|].
  destruct (String.eqb_spec k0 k) as [->|Hne].
  - intros [= ->]. now left.
  - intros H. right. now apply IH.
Qed.

Lemma in_dict_get d k v :
  NoDup (dict_keys d) -> In (k, v) d -> dict_get d k = Some v.
Proof.
  induction d as [|[k0 v0] d IH]; simpl; intros Hnd Hin; [contradiction|].
  inversion Hnd as [|? ? Hnin Hnd']; subst.
  destruct Hin as [[= -> ->]|Hin].
  - now rewrite String.eqb_refl.
  - destruct (String.eqb_spec k0 k) as [->|Hne]; [|now apply IH].
    exfalso. apply Hnin. change k with (fst (k, v)). now apply in_map.
Qed.

Lemma dict_set_in d k v k' v' :
  NoDup (dict_keys d) ->
  In (k', v') (dict_set d k v) -> (k', v') = (k, v) \/ (In (k', v') d /\ k' <> k).
Proof.
  induction d as [|[k0 v0] d IH]; simpl; intros Hnd.
  - intros [H|[]]. left. congruence.
  - inversion Hnd as [|? ? Hnin Hnd']; subst.
    destruct (String.eqb_spec k0 k) as [->|Hne]; simpl.
    + intros [[= <- <-]|H]; [now left|].
      right. split; [now right|]. intros ->. apply Hnin.
      change k with (fst (k, v')). now apply in_map.
    + intros [[= <- <-]|H].
      * right. split; [now left | exact Hne].
      * destruct (IH Hnd' H) as [Heq|[Hin Hk]]; [now left|].
        right. split; [now right | exact Hk].
Qed.

Lemma dict_get_del_same d k :
  NoDup (dict_keys d) -> dict_get (dict_del d k) k = None.
Proof.
  induction d as [|[k0 v0] d IH]; simpl; intros Hnd; [reflexivity|].
  inversion Hnd as [|? ? Hnin Hnd']; subst.
  destruct (String.eqb_spec k0 k) as [->|Hne].
  - destruct (dict_get d k) as [v|] eqn:Hg; [|reflexivity].
    exfalso. apply Hnin. apply dict_get_in in Hg.
    change k with (fst (k, v)). now apply in_map.
  - simpl. apply String.eqb_neq in Hne. rewrite Hne. now apply IH.
Qed.

Lemma dict_get_del_other d k k' :
  k' <> k -> dict_get (dict_del d k) k' = dict_get d k'.
Proof.
  intros Hne. induction d as [|[k0 v0] d IH]; simpl; [reflexivity|].
  destruct (String.eqb_spec k0 k) as [->|Hk]; simpl.
  - apply not_eq_sym in Hne. apply String.eqb_neq in Hne. now rewrite Hne.
  - now rewrite IH.
Qed.

Lemma fold_del_skip d (ks : list string) k v :
  ~ In k ks ->
  fold_left (fun d k => dict_del d k) ks ((k, v) :: d)
  = (k, v) :: fold_left (fun d k => dict_del d k) ks d.
Proof.
  revert d; induction ks as [|k' ks IH]; intros d Hn; simpl; [reflexivity|].
  destruct (String.eqb_spec k k') as [->|Hne]; [simpl in Hn; tauto|].
  apply IH. simpl in Hn. tauto.
Qed.

(** Deleting, one by one, the keys of the entries that satisfy [p] leaves
    the entries that do not, in their order. *)
Lemma fold_del_filter (p : string * V -> bool) d :
  NoDup (dict_keys d) ->
  fold_left (fun d k => dict_del d k) (dict_keys (List.filter p d)) d
  = List.filter (fun kv => negb (p kv)) d.
Proof.
  induction d as [|[k v] d IH]; simpl; intros Hnd; [reflexivity|].
  inversion Hnd as [|? ? Hnin Hnd']; subst.
  destruct (p (k, v)); simpl.
  - rewrite String.eqb_refl. now apply IH.
  - rewrite fold_del_skip; [now rewrite IH|].
    intros Hin. apply Hnin. unfold dict_keys in *.
    apply in_map_iff in Hin as ([k' v'] & Hk & Hin). simpl in Hk. subst k'.
    apply filter_In in Hin as [Hin _].
    change k with (fst (k, v')). now apply in_map.
Qed.

End DictMoreFacts.

(** ** More on the cache layer *)
Section CacheMoreFacts.
Import Py Cache.

Lemma nodup_app_disjoint {A} (l1 l2 : list A) (x : A) :
  NoDup (l1 ++ l2) -> In x l1 -> In x l2 -> False.
Proof.
  induction l1 as [|a l1 IH]; simpl; intros Hnd H1 H2; [contradiction|].
  inversion Hnd as [|? ? Hnin Hnd']; subst.
  destruct H1 as [->|H1]; [|now apply IH].
  apply Hnin. apply in_or_app. now right.
Qed.

(** The entry [set] writes is in the cache it leaves, when the maximum is
    at least one and every other entry was used earlier. *)
Lemma set_keeps_written (tc tl : Z) (key : string) (suggs : list string) (t : Z)
      (m : CacheManager) :
  (1 <= max_size m)%Z ->
  NoDup (dict_keys (cache m)) ->
  (forall k e, In (k, e) (cache m) -> k <> key -> (last_used_key (k, e) < tl)%Z) ->
  dict_get (cache (set tc tl key suggs t m)) key
  = Some {| suggestions := Some suggs; created := Some tc;
            last_used := Some tl; hit_count := Some 0%Z; ttl := Some t |}.
Proof.
  intros Hmax Hnd Hnew. unfold set. rewrite save_cache_cache.
  set (e := {| suggestions := Some suggs; created := Some tc;
               last_used := Some tl; hit_count := Some 0%Z; ttl := Some t |}).
  set (written := dict_set (cache m) key e).
  assert (Hndw : NoDup (dict_keys written)) by now apply dict_set_nodup.
  assert (Hin : In (key, e) written) by apply dict_get_in, dict_get_set_same.
  destruct (Z.ltb_spec (max_size m) (Z.of_nat (List.length written))) as [Hlt|Hge].
  - destruct (cleanup_keeps_most_recent (with_cache m written) Hmax Hndw Hlt)
      as (Hlen & dropped & Hperm & Hdom).
    set (kept := cache (_cleanup_cache (with_cache m written))) in *.
    cbn [with_cache cache max_size] in Hlen, Hperm.
    assert (Hndk : NoDup (map fst (dropped ++ kept))).
    { eapply Permutation_NoDup; [apply Permutation_map, Permutation_sym, Hperm|].
      exact Hndw. }
    rewrite map_app in Hndk.
    apply (Permutation_in _ (Permutation_sym Hperm)) in Hin.
    apply in_app_or in Hin as [Hdrop|Hkept].
    + exfalso. destruct kept as [|[k' e'] kept'] eqn:Hk; [cbn in Hlen; lia|].
      assert (Hr : In (k', e') ((k', e') :: kept')) by now left.
      pose proof (Hdom _ _ Hdrop Hr) as Hle.
      assert (Hrw : In (k', e') written).
      { apply (Permutation_in _ Hperm). apply in_or_app. now right. }
      destruct (dict_set_in _ _ _ _ _ Hnd Hrw) as [Heq|[Hold Hk']].
      * injection Heq as -> ->.
        apply (nodup_app_disjoint _ _ key Hndk).
        -- change key with (fst (key, e)). now apply in_map.
        -- change key with (fst (key, e)). now apply in_map.
      * specialize (Hnew _ _ Hold Hk'). unfold last_used_key in Hle, Hnew.
        cbn in Hle, Hnew. lia.
    + apply in_dict_get; [|exact Hkept].
      unfold dict_keys. now apply NoDup_app_remove_l in Hndk.
  - unfold _cleanup_cache. cbn [with_cache cache max_size].
    replace (max_size m <? Z.of_nat (List.length written))%Z with false
      by (symmetry; apply Z.ltb_ge; exact Hge).
    apply dict_get_set_same.
Qed.

(** X13.  What [set] stores, [get] returns: with a maximum of at least one
    and a clock reading later than the last use of every other entry, a
    [get] of the key that follows the [set] hits and returns the suggestions
    stored, whether or not the [set] had to evict. *)
Theorem set_then_get (tc tl now : Z) (key : string) (suggs : list string) (t : Z)
        (m : CacheManager) :
  (1 <= max_size m)%Z ->
  NoDup (dict_keys (cache m)) ->
  (forall k e, In (k, e) (cache m) -> k <> key -> (last_used_key (k, e) < tl)%Z) ->
  fst (get now key (set tc tl key suggs t m)) = Some suggs.
Proof.
  intros Hmax Hnd Hnew. unfold get.
  now rewrite (set_keeps_written tc tl key suggs t m Hmax Hnd Hnew).
Qed.

(** X13 witness: a manager of size one, full, whose entry is evicted. *)
Lemma set_then_get_witness :
  fst (get 300 "ls|"
           (set 200 200 "ls|" ["-l"] 3600
                {| max_size := 1; cache := [("git|", sample_entry)];
                   cache_file := None; writable := true |}))
  = Some ["-l"]
  /\ dict_keys (cache (set 200 200 "ls|" ["-l"] 3600
                {| max_size := 1; cache := [("git|", sample_entry)];
                   cache_file := None; writable := true |})) = ["ls|"].
Proof.
  split; [|reflexivity]. apply set_then_get.
  - cbn. lia.
  - cbn. repeat constructor. simpl. tauto.
  - cbn. intros k e [[= <- <-]|[]] _. cbn. lia.
Defined.

(** X14.  After [invalidate] the key misses and every other key is looked
    up as before. *)
Theorem invalidate_then_miss (now : Z) (key : string) (m : CacheManager) :
  NoDup (dict_keys (cache m)) ->
  fst (get now key (invalidate key m)) = None
  /\ forall k, k <> key ->
       dict_get (cache (invalidate key m)) k = dict_get (cache m) k.
Proof.
  intros Hnd. unfold invalidate, dict_contains.
  destruct (dict_get (cache m) key) as [e|] eqn:Hg.
  - rewrite save_cache_cache. unfold get. rewrite save_cache_cache.
    cbn [with_cache cache]. rewrite dict_get_del_same by exact Hnd.
    split; [reflexivity|]. intros k Hk. now apply dict_get_del_other.
  - unfold get. rewrite Hg. split; [reflexivity | reflexivity].
Qed.

(** X14 witness. *)
Lemma invalidate_then_miss_witness :
  fst (get 300 "git|" (invalidate "git|" sample_manager)) = None
  /\ forall k, k <> "git|" ->
       dict_get (cache (invalidate "git|" sample_manager)) k
       = dict_get (cache sample_manager) k.
Proof.
  apply invalidate_then_miss. cbn. repeat constructor. simpl. tauto.
Defined.

(** X15.  [cleanup_expired] removes exactly the entries whose age exceeds
    their time-to-live and keeps the others in their order; the store is
    rewritten only when something was removed. *)
Theorem cleanup_expired_is_filter (current_time : Z) (m : CacheManager) :
  NoDup (dict_keys (cache m)) ->
  cache (cleanup_expired current_time m)
  = List.filter (fun kv => negb (expired current_time (snd kv))) (cache m)
  /\ (Forall (fun kv => expired current_time (snd kv) = false) (cache m) ->
      cleanup_expired current_time m = m).
Proof.
  intros Hnd. unfold cleanup_expired. cbv zeta.
  pose proof (fold_del_filter (fun kv => expired current_time (snd kv))
                              (cache m) Hnd) as Hc.
  set (ks := dict_keys (List.filter (fun kv => expired current_time (snd kv))
                                    (cache m))) in *.
  split.
  - destruct ks; [exact Hc | now rewrite save_cache_cache].
  - intros Hall. subst ks.
    rewrite (filter_false_nil (fun kv => expired current_time (snd kv)) (cache m)).
    + cbn. destruct m; reflexivity.
    + now apply Forall_forall.
Qed.

(** X15 witness: the entry of [sample_manager] at time 100000. *)
Lemma cleanup_expired_is_filter_witness :
  cache (cleanup_expired 100000 sample_manager)
  = List.filter (fun kv => negb (expired 100000 (snd kv))) (cache sample_manager)
  /\ (Forall (fun kv => expired 100000 (snd kv) = false) (cache sample_manager) ->
      cleanup_expired 100000 sample_manager = sample_manager).
Proof.
  apply cleanup_expired_is_filter. cbn. repeat constructor. simpl. tauto.
Defined.

Lemma sum_hits_set (d : dict Entry) (key : string) (e e' : Entry) :
  dict_get d key = Some e ->
  sum_hits (dict_set d key e')
  = (sum_hits d - get_or 0 (hit_count e) + get_or 0 (hit_count e'))%Z.
Proof.
  induction d as [|[k0 e0] d IH]; simpl; [discriminate|].
  destruct (String.eqb_spec k0 key) as [->|Hne]; simpl.
  - intros [= ->]. lia.
  - intros H. rewrite (IH H). lia.
Qed.

(** X16.  The statistics count the hits: a [get] that hits raises
    [total_hits] by one and leaves the number of entries as it was. *)
Theorem get_stats_counts_hit (now : Z) (key : string) (m : CacheManager)
        (entry : Entry) :
  dict_get (cache m) key = Some entry ->
  total_hits (get_stats (snd (get now key m))) = (total_hits (get_stats m) + 1)%Z
  /\ total_entries (get_stats (snd (get now key m))) = total_entries (get_stats m).
Proof.
  intros Hg. unfold get. rewrite Hg.
  cbn [snd get_stats total_hits total_entries with_cache cache]. split.
  - rewrite (sum_hits_set _ _ _ _ Hg). cbn. lia.
  - f_equal.
    rewrite <- (length_map fst (dict_set _ _ _)), <- (length_map fst (cache m)).
    fold (dict_keys (cache m)).
    match goal with
    | |- List.length (map fst ?d) = _ => fold (dict_keys d)
    end.
    now rewrite (dict_keys_set_present _ _ _ _ Hg).
Qed.

(** X16 witness. *)
Lemma get_stats_counts_hit_witness :
  total_hits (get_stats (snd (get 200 "git|" sample_manager)))
  = (total_hits (get_stats sample_manager) + 1)%Z
  /\ total_entries (get_stats (snd (get 200 "git|" sample_manager)))
     = total_entries (get_stats sample_manager).
Proof. apply (get_stats_counts_hit 200 "git|" sample_manager sample_entry). reflexivity. Defined.

(** X18 witness: a manager of size one holding one entry. *)
Lemma set_size_bounded_witness :
  (Z.of_nat (List.length
     (cache (set 200 200 "ls|" ["-l"] 3600
                 {| max_size := 1; cache := [("git|", sample_entry)];
                    cache_file := None; writable := true |}))) <= 1)%Z.
Proof.
  apply (set_size_bounded 200 200 "ls|" ["-l"] 3600
           {| max_size := 1; cache := [("git|", sample_entry)];
              cache_file := None; writable := true |}).
  cbn. lia.
Defined.

(** X19 witness: the same manager; the older entry is dropped. *)
Lemma set_keeps_most_recent_witness :
  let m := {| max_size := 1; cache := [("git|", sample_entry)];
              cache_file := None; writable := true |} in
  Z.of_nat (List.length (cache (set 200 200 "ls|" ["-l"] 3600 m))) = 1%Z
  /\ exists dropped,
       Permutation
         (dropped ++ cache (set 200 200 "ls|" ["-l"] 3600 m))
         (dict_set (cache m) "ls|"
            {| suggestions := Some ["-l"]; created := Some 200%Z;
               last_used := Some 200%Z; hit_count := Some 0%Z;
               ttl := Some 3600%Z |})
       /\ forall d r, In d dropped ->
                      In r (cache (set 200 200 "ls|" ["-l"] 3600 m)) ->
                      (last_used_key d <= last_used_key r)%Z.
Proof.
  intros m.
  apply (set_keeps_most_recent 200 200 "ls|" ["-l"] 3600 m).
  - cbn. lia.
  - cbn. repeat constructor. simpl. tauto.
  - cbn. lia.
Defined.

End CacheMoreFacts.

(** ** More on the predictor *)
Section PredictorMoreFacts.
Import Py Utils Predictor.

(** With room for one more entry [set] evicts nothing. *)
Lemma set_keeps_written_room (tc tl : Z) (key : string) (suggs : list string)
      (t : Z) (m : Cache.CacheManager) :
  (Z.of_nat (List.length (Cache.cache m)) < Cache.max_size m)%Z ->
  dict_get (Cache.cache (Cache.set tc tl key suggs t m)) key
  = Some {| Cache.suggestions := Some suggs; Cache.created := Some tc;
            Cache.last_used := Some tl; Cache.hit_count := Some 0%Z;
            Cache.ttl := Some t |}.
Proof.
  intros Hroom. unfold Cache.set. rewrite save_cache_cache.
  unfold Cache._cleanup_cache. cbn [Cache.with_cache Cache.cache Cache.max_size].
  match goal with
  | |- context [(_ <? Z.of_nat (List.length ?d))%Z] =>
      pose proof (dict_set_length (Cache.cache m) key
        {| Cache.suggestions := Some suggs; Cache.created := Some tc;
           Cache.last_used := Some tl; Cache.hit_count := Some 0%Z;
           Cache.ttl := Some t |}) as Hlen;
      replace (Cache.max_size m <? Z.of_nat (List.length d))%Z with false
        by (symmetry; apply Z.ltb_ge; lia)
  end.
  apply dict_get_set_same.
Qed.

(** X21.  The predictor memoizes: when the cache has room for one more
    entry, a prediction that returned a list returns the same list when it
    is asked again for the same context, at any later time, without
    computing candidates (no fuel is needed) and without touching the
    table. *)
Theorem predict_memoized (fuel : nat) (tg tc tl : Z) (context : Context)
        (w w1 : World) (result : list string) :
  (Z.of_nat (List.length (Cache.cache (w_cache w))) < Cache.max_size (w_cache w))%Z ->
  predict_rule_based fuel tg tc tl context w = Some (result, w1) ->
  forall tg' tc' tl',
  exists w2,
    predict_rule_based 0 tg' tc' tl' context w1 = Some (result, w2)
    /\ w_commands w2 = w_commands w1.
Proof.
  intros Hroom. unfold predict_rule_based at 1. unfold Cache.get.
  destruct (dict_get (Cache.cache (w_cache w)) (create_cache_key context))
    as [e|] eqn:Hg.
  - intros [= <- <-] tg' tc' tl'. unfold predict_rule_based, Cache.get.
    cbn [w_cache Cache.with_cache Cache.cache]. rewrite dict_get_set_same.
    cbn [Cache.suggestions]. eexists. split; reflexivity.
  - destruct (candidates _ _ _ _) as [[suggs table]|]; [|discriminate].
    intros [= <- <-] tg' tc' tl'. unfold predict_rule_based, Cache.get.
    cbn [w_cache]. rewrite set_keeps_written_room by exact Hroom.
    cbn [Cache.suggestions get_or]. eexists. split; reflexivity.
Qed.

(** X21 witness: [git commit -m] with the cursor at 12 on a fresh world. *)
Lemma predict_memoized_witness :
  exists w1 w2,
    predict_with_context 100 1 2 3 "git commit -m" 12 (fresh_world None true)
    = Some (["-m"], w1)
    /\ predict_with_context 0 4 5 6 "git commit -m" 12 w1 = Some (["-m"], w2)
    /\ w_commands w2 = w_commands w1.
Proof.
  eexists. 
  destruct (predict_memoized 100 1 2 3
              (mkContext (Some "git") (Some "commit") ["-"] "-m" 11 13
                         (Some ["git"; "commit"; "-"]))
              (fresh_world None true)
              _ ["-m"] ltac:(cbn; lia) eq_refl 4%Z 5%Z 6%Z) as (w2 & H2 & Ht).
  exists w2. split; [reflexivity|]. split; [exact H2 | exact Ht].
Defined.

(** X22.  A command the table does not know is no error: on a cache miss the
    prediction is the empty list, whatever the subcommand and the current
    word, and the table is left as it was. *)
Theorem predict_unknown_command (fuel : nat) (tg tc tl : Z) (context : Context)
        (w : World) (cmd : string) :
  dict_get (Cache.cache (w_cache w)) (create_cache_key context) = None ->
  command context = Some cmd ->
  dict_get (w_commands w) cmd = None ->
  exists w',
    predict_rule_based fuel tg tc tl context w = Some ([], w')
    /\ w_commands w' = w_commands w.
Proof.
  intros Hmiss Hcmd Hunknown. unfold predict_rule_based, Cache.get.
  rewrite Hmiss. unfold candidates. rewrite Hcmd, Hunknown.
  unfold filter_suggestions.
  destruct (truthy (current_word context)); cbn; eexists; split; reflexivity.
Qed.

(** X22 witness. *)
Lemma predict_unknown_command_witness :
  exists w',
    predict_rule_based 0 1 2 3
      (mkContext (Some "kubectl") (Some "get") [] "po" 12 14 None)
      (fresh_world None true) = Some ([], w')
    /\ w_commands w' = w_commands (fresh_world None true).
Proof.
  apply (predict_unknown_command 0 1 2 3 _ (fresh_world None true) "kubectl");
    reflexivity.
Defined.

Lemma candidates_frame (fuel : nat) (table table' : dict CmdData)
      (cmd subcmd : option string) (suggs : list string) :
  candidates fuel table cmd subcmd = Some (suggs, table') ->
  dict_keys table' = dict_keys table
  /\ forall c, cmd <> Some c -> dict_get table' c = dict_get table c.
Proof.
  unfold candidates. destruct cmd as [c0|]; [|now intros [= _ <-]].
  destruct (dict_get table c0) as [data|] eqn:Hd; [|now intros [= _ <-]].
  assert (Hset : forall data',
             dict_keys (dict_set table c0 data') = dict_keys table
             /\ forall c, Some c0 <> Some c ->
                  dict_get (dict_set table c0 data') c = dict_get table c).
  { intros data'. split; [eapply dict_keys_set_present; exact Hd|].
    intros c Hc. apply dict_get_set_other. congruence. }
  destruct subcmd as [sc|]; [|intros [= _ <-]; apply Hset].
  destruct (List.filter _ _) as [|m ms].
  - destruct (dict_get (flags data) sc); intros [= _ <-]; [apply Hset | now split].
  - destruct (extend_loop _ _ _ _); [|discriminate]. now intros [= _ <-].
Qed.

(** X23.  A prediction never adds or removes a command of the table, and it
    leaves the entries of all commands but the one of the context as they
    were. *)
Theorem predict_table_frame (fuel : nat) (tg tc tl : Z) (context : Context)
        (w w' : World) (result : list string) :
  predict_rule_based fuel tg tc tl context w = Some (result, w') ->
  dict_keys (w_commands w') = dict_keys (w_commands w)
  /\ forall c, command context <> Some c ->
       dict_get (w_commands w') c = dict_get (w_commands w) c.
Proof.
  unfold predict_rule_based.
  destruct (Cache.get _ _ _) as [[cached|] cm].
  - intros [= _ <-]. now split.
  - destruct (candidates _ _ _ _) as [[suggs table]|] eqn:Hc; [|discriminate].
    intros [= _ <-]. cbn [w_commands]. eapply candidates_frame. exact Hc.
Qed.

(** X23 witness: the prediction for [ls] changes the entry of [ls] only. *)
Lemma predict_table_frame_witness :
  exists w',
    predict_with_context 100 1 2 3 "ls" 2 (fresh_world None true)
    = Some (["-l"; "--long"; "-a"; "--all"; "-h"; "--human-readable";
             "--color"; "-R"; "--recursive"], w')
    /\ dict_keys (w_commands w') = dict_keys COMMANDS
    /\ dict_get (w_commands w') "git" = dict_get COMMANDS "git".
Proof.
  eexists. split; [reflexivity|].
  match goal with
  | |- dict_keys (w_commands ?w') = _ /\ _ =>
      destruct (predict_table_frame 100 1 2 3
                  (mkContext (Some "ls") None [] "" 0 2 (Some ["ls"]))
                  (fresh_world None true) w' _ eq_refl) as [Hk Hf]
  end.
  split; [exact Hk|]. apply Hf. discriminate.
Defined.

(** *** The extension loop *)

Lemma extend_loop_leaves (fl : dict (list string)) (fuel i : nat) (l : list string) :
  (forall j x, i <= j -> nth_error l j = Some x -> flags_of fl x = []) ->
  List.length l - i < fuel ->
  extend_loop fuel fl i l = Some l.
Proof.
  revert i; induction fuel as [|fuel IH]; intros i Hleaf Hfuel; [lia|].
  cbn [extend_loop]. destruct (nth_error l i) as [x|] eqn:Hx; [|reflexivity].
  change (dict_get_default fl x []) with (flags_of fl x).
  rewrite (Hleaf i x (le_n i) Hx), app_nil_r.
  assert (i < List.length l) by (apply nth_error_Some; congruence).
  apply IH; [|lia]. intros j y Hj. apply Hleaf. lia.
Qed.

Lemma extend_loop_visits (fl : dict (list string)) (rest : list string) :
  (forall m f, In m rest -> In f (flags_of fl m) -> flags_of fl f = []) ->
  forall pre acc fuel,
    (forall x, In x acc -> flags_of fl x = []) ->
    List.length rest + List.length acc
    + List.length (flat_map (flags_of fl) rest) < fuel ->
    extend_loop fuel fl (List.length pre) (pre ++ rest ++ acc)
    = Some (pre ++ rest ++ acc ++ flat_map (flags_of fl) rest).
Proof.
  induction rest as [|m rest IH]; intros Hleafy pre acc fuel Hacc Hfuel.
  - cbn [app flat_map]. rewrite app_nil_r. apply extend_loop_leaves.
    + intros j x Hj Hx. apply Hacc.
      rewrite nth_error_app2 in Hx by exact Hj. eapply nth_error_In; exact Hx.
    + rewrite length_app. cbn in Hfuel. lia.
  - destruct fuel as [|fuel]; [lia|]. cbn [extend_loop].
    rewrite nth_error_app2 by lia. rewrite Nat.sub_diag. cbn [app nth_error].
    change (dict_get_default fl m []) with (flags_of fl m).
    replace ((pre ++ m :: rest ++ acc) ++ flags_of fl m)
      with ((pre ++ [m]) ++ rest ++ (acc ++ flags_of fl m))
      by (rewrite <- !app_assoc; cbn [app]; rewrite <- !app_assoc; reflexivity).
    replace (S (List.length pre)) with (List.length (pre ++ [m]))
      by (rewrite length_app; cbn; lia).
    rewrite IH.
    + cbn [flat_map]. rewrite <- !app_assoc. reflexivity.
    + intros m' f Hm' Hf. eapply Hleafy; [right; exact Hm' | exact Hf].
    + intros x Hx. apply in_app_or in Hx as [Hx|Hx]; [now apply Hacc|].
      eapply Hleafy; [left; reflexivity | exact Hx].
    + cbn [flat_map List.length] in Hfuel. rewrite !length_app in *. lia.
Qed.

Lemma leafy_flags_spec (fl : dict (list string)) (m f : string) :
  leafy_flags fl = true -> In f (flags_of fl m) -> flags_of fl f = [].
Proof.
  unfold leafy_flags, flags_of, dict_get_default. intros Hleafy Hf.
  destruct (dict_get fl m) as [v|] eqn:Hm; [|contradiction].
  apply dict_get_in in Hm. rewrite forallb_forall in Hleafy.
  specialize (Hleafy _ Hm). cbn in Hleafy. rewrite forallb_forall in Hleafy.
  specialize (Hleafy _ Hf). unfold dict_contains in Hleafy.
  now destruct (dict_get fl f).
Qed.

Lemma filter_visits_bound (fl : dict (list string)) (p : string -> bool)
      (l : list string) :
  List.length (List.filter p l)
  + List.length (flat_map (flags_of fl) (List.filter p l))
  <= List.length l + List.length (flat_map (flags_of fl) l).
Proof.
  induction l as [|x l IH]; cbn; [lia|].
  destruct (p x); cbn; rewrite !length_app; lia.
Qed.

(** With leafy flags and enough fuel the candidates are computed. *)
Lemma candidates_defined (fuel : nat) (table : dict CmdData)
      (cmd subcmd : option string) :
  table_terminates fuel table = true ->
  candidates fuel table cmd subcmd <> None.
Proof.
  intros Hterm. unfold candidates. destruct cmd as [c|]; [|discriminate].
  destruct (dict_get table c) as [data|] eqn:Hd; [|discriminate].
  destruct subcmd as [sc|]; [|discriminate].
  apply dict_get_in in Hd. unfold table_terminates in Hterm.
  rewrite forallb_forall in Hterm. specialize (Hterm _ Hd). cbn in Hterm.
  apply andb_true_iff in Hterm as [Hleafy Hbound]. apply Nat.ltb_lt in Hbound.
  destruct (List.filter _ _) as [|m ms] eqn:Hmatch.
  - destruct (dict_get (flags data) sc); discriminate.
  - pose proof (filter_visits_bound (flags data) (fun s => startswith s sc)
                                    (subcommands data)) as Hle.
    rewrite Hmatch in Hle. unfold loop_bound in Hbound.
    pose proof (extend_loop_visits (flags data) (m :: ms)
                  (fun m' f _ Hf => leafy_flags_spec _ m' f Hleafy Hf)
                  [] [] fuel (fun x Hx => False_ind _ Hx)) as Hloop.
    cbn [List.length app] in Hloop. rewrite app_nil_r in Hloop.
    rewrite Hloop by (cbn [List.length] in *; lia). discriminate.
Qed.

(** X24.  When no flag of the table is itself a key with flags and the fuel
    exceeds the loop bound of every command, the self-extending loop ends
    and the predictor returns a list for every context; the table shipped in
    [COMMANDS] is such a table for 56 visits. *)
Theorem predict_returns (fuel : nat) (tg tc tl : Z) (context : Context) (w : World) :
  table_terminates fuel (w_commands w) = true ->
  exists result w', predict_rule_based fuel tg tc tl context w = Some (result, w').
Proof.
  intros Hterm. unfold predict_rule_based.
  destruct (Cache.get _ _ _) as [[cached|] cm]; [eauto|].
  pose proof (candidates_defined fuel (w_commands w) (command context)
                                 (subcommand context) Hterm) as Hc.
  destruct (candidates _ _ _ _) as [[suggs table]|]; [eauto | congruence].
Qed.

(** X24 witness: the shipped table and the widest match, every subcommand
    of [git]. *)
Lemma predict_returns_witness :
  exists result w',
    predict_rule_based 56 1 2 3
      (mkContext (Some "git") (Some "") [] "" 4 4 None)
      (fresh_world None true)
    = Some (result, w').
Proof.
  apply (predict_returns 56 1 2 3
           (mkContext (Some "git") (Some "") [] "" 4 4 None)
           (fresh_world None true)).
  reflexivity.
Defined.

Lemma extend_loop_diverges (fl : dict (list string)) (m : string)
      (v : list string) :
  dict_get fl m = Some v -> In m v ->
  forall fuel i l,
    (exists j, i <= j /\ nth_error l j = Some m) ->
    extend_loop fuel fl i l = None.
Proof.
  intros Hm Hin. induction fuel as [|fuel IH]; intros i l (j & Hij & Hj);
    [reflexivity|].
  cbn [extend_loop].
  assert (Hjl : j < List.length l) by (apply nth_error_Some; congruence).
  destruct (nth_error l i) as [x|] eqn:Hx;
    [|apply nth_error_None in Hx; lia].
  apply IH. destruct (Nat.eq_dec j i) as [->|Hne].
  - assert (x = m) by congruence. subst x.
    unfold dict_get_default. rewrite Hm.
    apply In_nth_error in Hin as [n Hn].
    exists (List.length l + n). split; [lia|].
    rewrite nth_error_app2 by lia.
    now replace (List.length l + n - List.length l) with n by lia.
  - exists j. split; [lia|]. now rewrite nth_error_app1.
Qed.

(** X25.  The extension loop iterates over the list it extends: when a
    subcommand that matches the typed one is listed among its own flags, the
    loop never ends, and on a cache miss the predictor returns nothing with
    any amount of fuel. *)
Theorem predict_diverges (context : Context) (w : World) (cmd sc m : string)
        (data : CmdData) (v : list string) :
  dict_get (Cache.cache (w_cache w)) (create_cache_key context) = None ->
  command context = Some cmd ->
  subcommand context = Some sc ->
  dict_get (w_commands w) cmd = Some data ->
  In m (subcommands data) ->
  startswith m sc = true ->
  dict_get (flags data) m = Some v ->
  In m v ->
  forall fuel tg tc tl, predict_rule_based fuel tg tc tl context w = None.
Proof.
  intros Hmiss Hcmd Hsub Hdata Hm Hstart Hflags Hself fuel tg tc tl.
  unfold predict_rule_based, Cache.get. rewrite Hmiss.
  unfold candidates. rewrite Hcmd, Hsub, Hdata.
  assert (Hin : In m (List.filter (fun s => startswith s sc) (subcommands data)))
    by (apply filter_In; now split).
  destruct (List.filter _ _) as [|m0 ms] eqn:Hmatch; [contradiction|].
  rewrite (extend_loop_diverges (flags data) m v Hflags Hself); [reflexivity|].
  apply In_nth_error in Hin as [j Hj]. exists j. split; [lia | exact Hj].
Qed.

(** X25 witness: the table whose subcommand [x] has the flag [x]. *)
Lemma predict_diverges_witness :
  predict_rule_based 1000 1 2 3
    (mkContext (Some "x") (Some "x") [] "" 2 3 (Some ["x"; "x"]))
    {| w_commands := looping_table; w_cache := Cache.init None true 1000 |}
  = None.
Proof.
  apply (predict_diverges
           (mkContext (Some "x") (Some "x") [] "" 2 3 (Some ["x"; "x"]))
           {| w_commands := looping_table; w_cache := Cache.init None true 1000 |}
           "x" "x" "x"
           {| subcommands := ["x"]; flags := [("x", ["x"])] |} ["x"]);
    try reflexivity; now left.
Defined.

(** X26.  The candidate list of a command without subcommand is the
    subcommand list of the table itself, extended in place: computing the
    candidates appends the command's global flags to the table, so computing
    them again gives the global flags twice. *)
Theorem candidates_grow (fuel : nat) (table : dict CmdData) (cmd : string)
        (data : CmdData) :
  dict_get table cmd = Some data ->
  exists table1 table2,
    candidates fuel table (Some cmd) None
    = Some (subcommands data ++ flags_of (flags data) "", table1)
    /\ candidates fuel table1 (Some cmd) None
       = Some ((subcommands data ++ flags_of (flags data) "")
               ++ flags_of (flags data) "", table2).
Proof.
  intros Hd. unfold candidates at 1. rewrite Hd.
  eexists. eexists. split; [reflexivity|].
  unfold candidates. rewrite dict_get_set_same. reflexivity.
Qed.

(** X26 witness: [cd] on the shipped table. *)
Lemma candidates_grow_witness :
  exists table1 table2,
    candidates 0 COMMANDS (Some "cd") None = Some (["-"; "-L"; "-P"], table1)
    /\ candidates 0 table1 (Some "cd") None
       = Some (["-"; "-L"; "-P"; "-"; "-L"; "-P"], table2).
Proof.
  apply (candidates_grow 0 COMMANDS "cd"
           {| subcommands := []; flags := [("", ["-"; "-L"; "-P"])] |}).
  reflexivity.
Defined.

(** X20 witness: the miss path on [git commit -m] with the cursor at 12. *)
Lemma predict_miss_ranking_law_witness :
  Forall (fun s => startswith (lower s) (lower "-m") = true) ["-m"]
  /\ exists exact rest,
       ["-m"] = exact ++ rest
       /\ Forall (fun s => lower s = lower "-m") exact
       /\ Forall (fun s => lower s <> lower "-m") rest.
Proof.
  apply (predict_miss_ranking_law 100 1 2 3
           (mkContext (Some "git") (Some "commit") ["-"] "-m" 11 13
                      (Some ["git"; "commit"; "-"]))
           (fresh_world None true)
           (snd (match predict_rule_based 100 1 2 3
                         (mkContext (Some "git") (Some "commit") ["-"] "-m" 11 13
                                    (Some ["git"; "commit"; "-"]))
                         (fresh_world None true)
                 with Some r => r | None => ([], fresh_world None true) end))
           ["-m"]); reflexivity.
Defined.

End PredictorMoreFacts.

(** ** The formatter and the help table *)
Section FormatterFacts.
Import Py Formatter.

Lemma sep_split_unique (sep : ascii) (a b r1 r2 : string) :
  has_char sep a = false -> has_char sep b = false ->
  (a ++ String sep r1 = b ++ String sep r2)%string -> a = b /\ r1 = r2.
Proof.
  revert b; induction a as [|x a IH]; intros [|y b] Ha Hb H; simpl in *.
  - injection H as ->. auto.
  - injection H as Hx _. subst y. rewrite Ascii.eqb_refl in Hb. discriminate.
  - injection H as Hx _. subst x. rewrite Ascii.eqb_refl in Ha. discriminate.
  - injection H as -> H.
    apply orb_false_iff in Ha as [_ Ha]. apply orb_false_iff in Hb as [_ Hb].
    destruct (IH b Ha Hb H) as [-> ->]. auto.
Qed.

Lemma sep_free_not_joined (sep : ascii) (a b r : string) :
  has_char sep a = false -> a <> (b ++ String sep r)%string.
Proof.
  intros Ha ->. rewrite has_char_app in Ha.
  change (has_char sep (String sep r))
    with ((sep =? sep)%char || has_char sep r) in Ha.
  rewrite Ascii.eqb_refl, orb_true_l, orb_true_r in Ha. discriminate.
Qed.

Lemma join_sep_injective (sep : ascii) (l1 l2 : list string) :
  l1 <> [] -> l2 <> [] ->
  Forall (fun s => has_char sep s = false) l1 ->
  Forall (fun s => has_char sep s = false) l2 ->
  join (String sep "") l1 = join (String sep "") l2 -> l1 = l2.
Proof.
  unfold join. revert l2.
  induction l1 as [|a l1 IH]; intros l2 H1 H2 F1 F2 H; [congruence|].
  destruct l2 as [|b l2]; [congruence|].
  inversion F1 as [|? ? Ha F1']; inversion F2 as [|? ? Hb F2']; subst.
  destruct l1 as [|x l1], l2 as [|y l2]; simpl in H.
  - congruence.
  - exfalso. eapply (sep_free_not_joined sep a b); [exact Ha | exact H].
  - exfalso. eapply (sep_free_not_joined sep b a); [exact Hb | symmetry; exact H].
  - apply sep_split_unique in H as [-> H]; [|assumption..].
    f_equal. apply IH; try assumption; discriminate.
Qed.

Lemma join_nonempty (sep : string) (x : string) (r : list string) :
  x <> "" -> join sep (x :: r) <> "".
Proof.
  intros Hx. unfold join. destruct x as [|c x]; [congruence|].
  destruct r; simpl; discriminate.
Qed.

(** The separator a shell type selects. *)
Lemma format_is_join (shell_type : string) :
  exists sep, (sep = newline \/ sep = tab)
    /\ forall x r, format_suggestions shell_type (x :: r)
                   = join (String sep "") (x :: r).
Proof.
  unfold format_suggestions, _format_bash, _format_zsh, _format_fish.
  destruct (shell_type =? "bash")%string; [exists newline; auto|].
  destruct (shell_type =? "zsh")%string; [exists newline; auto|].
  destruct (shell_type =? "fish")%string; [exists tab; auto | exists newline; auto].
Qed.

(** X27.  Formatting loses nothing: for any shell type, two lists of
    non-empty suggestions that hold neither a newline nor a tab and are
    formatted to the same text are the same list. *)
Theorem format_suggestions_injective (shell_type : string) (l1 l2 : list string) :
  Forall (fun s => s <> "" /\ has_char newline s = false
                   /\ has_char tab s = false) l1 ->
  Forall (fun s => s <> "" /\ has_char newline s = false
                   /\ has_char tab s = false) l2 ->
  format_suggestions shell_type l1 = format_suggestions shell_type l2 ->
  l1 = l2.
Proof.
  intros F1 F2 H.
  destruct (format_is_join shell_type) as (sep & Hsep & Hjoin).
  assert (Hfree : forall l,
             Forall (fun s => s <> "" /\ has_char newline s = false
                              /\ has_char tab s = false) l ->
             Forall (fun s => has_char sep s = false) l).
  { intros l F. eapply Forall_impl; [|exact F].
    intros s (_ & Hn & Ht). destruct Hsep as [->| ->]; assumption. }
  destruct l1 as [|x1 r1], l2 as [|x2 r2].
  - reflexivity.
  - exfalso. rewrite Hjoin in H.
    change (format_suggestions shell_type []) with "" in H. symmetry in H.
    revert H. apply join_nonempty. inversion F2 as [|? ? [Hx _] _]. exact Hx.
  - exfalso. rewrite Hjoin in H.
    change (format_suggestions shell_type []) with "" in H.
    revert H. apply join_nonempty. inversion F1 as [|? ? [Hx _] _]. exact Hx.
  - rewrite !Hjoin in H.
    apply (join_sep_injective sep); auto; discriminate.
Qed.

(** X27 witness. *)
Lemma format_suggestions_injective_witness :
  ["add"; "commit"] = ["add"; "commit"].
Proof.
  apply (format_suggestions_injective "fish");
    [ repeat constructor; discriminate
    | repeat constructor; discriminate
    | reflexivity ].
Defined.

(** X28.  Help is offered only for what the predictor knows: whenever
    [get_command_help] returns a text, the command is in [COMMANDS] and the
    subcommand is one of its declared subcommands. *)
Theorem help_only_for_known (cmd : string) (sub : option string) (text : string) :
  UtilsRest.get_command_help cmd sub = Some text ->
  exists data s,
    dict_get Predictor.COMMANDS cmd = Some data
    /\ sub = Some s
    /\ In s (Predictor.subcommands data).
Proof.
  unfold UtilsRest.get_command_help, UtilsRest.help_texts. cbn [dict_get].
  destruct (String.eqb_spec "git" cmd) as [<-|Hg].
  - destruct sub as [s|]; [|discriminate].
    destruct (truthy s); [|discriminate]. cbn [dict_get].
    repeat match goal with
           | |- context [String.eqb ?a s] =>
               destruct (String.eqb_spec a s) as [<-|?];
               [intros _; eexists; eexists; split; [reflexivity|];
                split; [reflexivity|]; cbn; tauto|]
           end.
    discriminate.
  - destruct (String.eqb_spec "docker" cmd) as [<-|Hd]; [|discriminate].
    destruct sub as [s|]; [|discriminate].
    destruct (truthy s); [|discriminate]. cbn [dict_get].
    repeat match goal with
           | |- context [String.eqb ?a s] =>
               destruct (String.eqb_spec a s) as [<-|?];
               [intros _; eexists; eexists; split; [reflexivity|];
                split; [reflexivity|]; cbn; tauto|]
           end.
    discriminate.
Qed.

(** X28 witness. *)
Lemma help_only_for_known_witness :
  exists data s,
    dict_get Predictor.COMMANDS "docker" = Some data
    /\ Some "exec" = Some s
    /\ In s (Predictor.subcommands data).
Proof.
  apply (help_only_for_known "docker" (Some "exec")
           "Run a command in a running container").
  reflexivity.
Defined.

End FormatterFacts.

(** ** The two context builders on quoted lines *)
Section ParserAgreement.
Import Py Utils.

(** The kinds of character the two tokenizers tell apart. *)
Lemma char_kind (c : ascii) :
  c = backslash \/ c = dquote \/ c = squote
  \/ ((c =? backslash)%char = false /\ (c =? dquote)%char = false
      /\ (c =? squote)%char = false
      /\ ((isspace c = true /\ Shlex.whitespace c = true)
          \/ (isspace c = true /\ Shlex.whitespace c = false)
          \/ (isspace c = false /\ Shlex.whitespace c = false))).
Proof.
  destruct c as [b0 b1 b2 b3 b4 b5 b6 b7].
  destruct b0, b1, b2, b3, b4, b5, b6, b7;
    first [ left; reflexivity
          | right; left; reflexivity
          | right; right; left; reflexivity
          | right; right; right;
            split; [reflexivity|]; split; [reflexivity|]; split; [reflexivity|];
            first [ left; split; reflexivity
                  | right; left; split; reflexivity
                  | right; right; split; reflexivity ] ].
Qed.

Lemma quotes_cases (q : ascii) : Shlex.quotes q = true -> q = squote \/ q = dquote.
Proof.
  unfold Shlex.quotes. intros H. apply orb_true_iff in H as [H|H];
    apply Ascii.eqb_eq in H; auto.
Qed.

(** The lexer of [shlex] and the tokenizer run in lockstep on an agreeable
    line, from any pair of states that go together. *)
Lemma lockstep (s : string) :
  forall st w sh tok qd cur inq qc acc,
    in_step st w sh tok qd cur inq qc ->
    agreeable s st w = true ->
    Shlex.read s sh tok qd acc = Some (tokenize_loop s acc cur inq qc).
Proof.
  induction s as [|c r IH]; intros st w sh tok qd cur inq qc acc Hstep Hok.
  - destruct Hstep; cbn in Hok |- *; try discriminate Hok.
    + reflexivity.
    + rewrite H. cbn. now rewrite andb_false_r.
  - destruct (char_kind c) as [-> | [-> | [-> | (Hb & Hd & Hs & Hk)]]].
    + (* a backslash *)
      destruct Hstep;
        try (match goal with
             | Hq : Shlex.quotes ?q = true |- _ =>
                 destruct (quotes_cases _ Hq) as [-> | ->]
             end);
        simpl in Hok |- *; try discriminate Hok;
        try rewrite H; try rewrite H0;
        (eapply IH; [econstructor; first [eassumption | reflexivity
                                         | apply truthy_app_char]
                    | exact Hok]).
    + (* a double quote *)
      destruct Hstep;
        try (match goal with
             | Hq : Shlex.quotes ?q = true |- _ =>
                 destruct (quotes_cases _ Hq) as [-> | ->]
             end);
        simpl in Hok |- *; try discriminate Hok;
        (eapply IH; [econstructor; first [eassumption | reflexivity
                                         | apply truthy_app_char]
                    | exact Hok]).
    + (* a single quote *)
      destruct Hstep;
        try (match goal with
             | Hq : Shlex.quotes ?q = true |- _ =>
                 destruct (quotes_cases _ Hq) as [-> | ->]
             end);
        simpl in Hok |- *; try discriminate Hok;
        (eapply IH; [econstructor; first [eassumption | reflexivity
                                         | apply truthy_app_char]
                    | exact Hok]).
    + (* any other character *)
      assert (Hq : Shlex.quotes c = false)
        by (unfold Shlex.quotes; now rewrite Hs, Hd).
      assert (He : Shlex.escape c = false) by exact Hb.
      assert (Hq' : (c =? dquote)%char || (c =? squote)%char = false)
        by now rewrite Hs, Hd.
      destruct Hstep;
        try (match goal with
             | Hq0 : Shlex.quotes ?q = true |- _ =>
                 destruct (quotes_cases _ Hq0) as [-> | ->]
             end);
        cbn [Shlex.read tokenize_loop agreeable] in Hok |- *;
        rewrite ?Hq, ?He, ?Hq', ?Hb, ?Hd, ?Hs in Hok;
        rewrite ?Hq, ?He, ?Hq', ?Hb, ?Hd, ?Hs;
        cbn [orb andb negb] in Hok |- *;
        destruct Hk as [[Hsp Hws] | [[Hsp Hws] | [Hsp Hws]]];
        rewrite ?Hsp, ?Hws in Hok;
        rewrite ?Hsp, ?Hws;
        cbn [orb andb negb only_empty_quotes] in Hok |- *;
        try discriminate Hok;
        try (match goal with
             | Ht : truthy ?t = true |- _ => rewrite ?Ht
             end);
        cbn [orb andb negb truthy append] in Hok |- *;
        (eapply IH; [econstructor; first [eassumption | reflexivity
                                         | apply truthy_app_char]
                    | exact Hok]).
Qed.

Lemma split_lstrip (s : string) :
  split_ws (ContextParser.lstrip s) "" = split_ws s "".
Proof.
  induction s as [|c r IH]; [reflexivity|].
  cbn [ContextParser.lstrip]. destruct (isspace c) eqn:Hc; [|reflexivity].
  cbn [split_ws]. rewrite Hc. exact IH.
Qed.

Lemma rstrip_blank (s : string) :
  ContextParser.rstrip s = "" ->
  forall cur, split_ws s cur = if truthy cur then [cur] else [].
Proof.
  induction s as [|c r IH]; intros Hr cur; [reflexivity|].
  cbn [ContextParser.rstrip] in Hr. cbn [split_ws].
  destruct (ContextParser.rstrip r) eqn:Er; [|discriminate].
  destruct (isspace c); [|discriminate].
  rewrite (IH eq_refl ""). cbn. now rewrite app_nil_r.
Qed.

Lemma split_rstrip (s : string) :
  forall cur, split_ws (ContextParser.rstrip s) cur = split_ws s cur.
Proof.
  induction s as [|c r IH]; intros cur; [reflexivity|].
  cbn [ContextParser.rstrip].
  destruct (ContextParser.rstrip r) as [|c' r'] eqn:Er.
  - destruct (isspace c) eqn:Hc; cbn [split_ws]; rewrite Hc.
    + rewrite (rstrip_blank r Er ""). cbn. now rewrite app_nil_r.
    + now rewrite (rstrip_blank r Er).
  - assert (Hcons : forall x, split_ws (String c x) cur
                              = if isspace c
                                then (if truthy cur then [cur] else [])
                                       ++ split_ws x ""
                                else split_ws x (cur ++ String c ""))
      by reflexivity.
    rewrite (Hcons (String c' r')), (Hcons r), !IH. reflexivity.
Qed.

Lemma split_strip (s : string) : Py.split (ContextParser.strip s) = Py.split s.
Proof.
  unfold Py.split, ContextParser.strip. now rewrite split_lstrip, split_rstrip.
Qed.

(** Under the condition of agreement the token list [parse_context] works
    on is the token list of the tokenizer. *)
Lemma parse_tokens_agree (prefix : string) :
  agree_condition prefix = true ->
  match Shlex.split prefix with
  | Some toks => toks
  | None => Py.split (ContextParser.strip prefix)
  end
  = tokenize_command_line prefix.
Proof.
  unfold agree_condition. intros H. apply orb_true_iff in H as [H|H].
  - unfold Shlex.split.
    rewrite (lockstep prefix _ _ _ _ _ _ _ _ [] step_blank H).
    unfold tokenize_command_line. now destruct prefix.
  - apply andb_true_iff in H as [Hq Hs].
    destruct (Shlex.split prefix); [discriminate|].
    unfold quote_free in Hq. apply andb_true_iff in Hq as [Hd Hsq].
    apply negb_true_iff in Hd, Hsq.
    rewrite split_strip. unfold tokenize_command_line, Py.split.
    destruct prefix as [|c r]; [reflexivity|]. cbn [truthy negb].
    now rewrite tokenize_loop_split.
Qed.

(** C9 (as amended).  For a cursor inside the line, [parse_context] and
    [extract_command_context] compute the same command, subcommand and
    arguments whenever the line up to the cursor is [agreeable] (every
    quote is closed, no word is made of empty quotes only, outside quotes
    there is no backslash and no whitespace other than space, tab, carriage
    return and newline, and inside double quotes a backslash comes before a
    character other than a backslash or a double quote), or has no quote
    character and makes [shlex] raise. *)
Theorem parse_extract_agree (line : string) (cursor : Z) :
  (0 <= cursor <= Z.of_nat (length line))%Z ->
  agree_condition (slice_to cursor line) = true ->
  exists ctx,
    extract_command_context line cursor = Some ctx
    /\ ContextParser.command (ContextParser.parse_context line cursor)
       = command ctx
    /\ ContextParser.subcommand (ContextParser.parse_context line cursor)
       = subcommand ctx
    /\ ContextParser.args (ContextParser.parse_context line cursor)
       = args ctx.
Proof.
  intros Hc Hp.
  destruct (extract_defined line cursor Hc) as (ctx & He & Hcmd & Hsub & Hargs).
  exists ctx. split; [exact He|].
  unfold ContextParser.parse_context. cbv zeta.
  rewrite (parse_tokens_agree _ Hp), Hcmd, Hsub, Hargs.
  destruct (tokenize_command_line (slice_to cursor line)); cbn; auto.
Qed.

(** C9 witness: a quoted argument, [git commit -m 'fix bug'], with the
    cursor at the end. *)
Lemma parse_extract_agree_witness :
  exists ctx,
    extract_command_context "git commit -m 'fix bug'" 23 = Some ctx
    /\ args ctx = ["-m"; "fix bug"]
    /\ ContextParser.command
         (ContextParser.parse_context "git commit -m 'fix bug'" 23)
       = command ctx
    /\ ContextParser.subcommand
         (ContextParser.parse_context "git commit -m 'fix bug'" 23)
       = subcommand ctx
    /\ ContextParser.args
         (ContextParser.parse_context "git commit -m 'fix bug'" 23)
       = args ctx.
Proof.
  destruct (parse_extract_agree "git commit -m 'fix bug'" 23)
    as (ctx & He & H); [simpl; lia | reflexivity |].
  exists ctx. split; [exact He|]. split; [|exact H].
  vm_compute in He. injection He as <-. reflexivity.
Defined.

(** Outside the condition the two builders do differ: an unclosed quote, a
    word made of empty quotes, a vertical tab outside quotes, and inside
    double quotes a backslash before a double quote. *)
Lemma parse_extract_disagree_cases :
  ContextParser.subcommand (ContextParser.parse_context "git 'a b" 8)
  <> option_map_subcommand (extract_command_context "git 'a b" 8)
  /\ ContextParser.subcommand (ContextParser.parse_context "git ''" 6)
     <> option_map_subcommand (extract_command_context "git ''" 6)
  /\ ContextParser.command
       (ContextParser.parse_context (String "a" (String "011" "b")) 3)
     <> option_map_command
          (extract_command_context (String "a" (String "011" "b")) 3)
  /\ ContextParser.command
       (ContextParser.parse_context
          (String dquote (String "a" (String backslash
             (String dquote (String "b" (String dquote "")))))) 6)
     <> option_map_command
          (extract_command_context
             (String dquote (String "a" (String backslash
                (String dquote (String "b" (String dquote "")))))) 6).
Proof. repeat split; vm_compute; discriminate. Qed.

End ParserAgreement.

(** ** The cache key collision *)
Section KeyCollision.
Import Py Utils Predictor.

(** C7 (the code at the failing input).  [git commit x ] with the cursor at
    13 and [git commit|x] with the cursor at 12 have different commands,
    subcommands and arguments and the same key [git|commit|x]: the tokenizer
    keeps the separator inside a token.  On an empty cache the second line
    gets the empty list; after the first line it is served the seven
    candidates cached for the first. *)
Theorem cache_key_collision_serves_wrong_list :
  exists ctx1 ctx2 w1 w2,
    extract_command_context "git commit x " 13 = Some ctx1
    /\ extract_command_context "git commit|x" 12 = Some ctx2
    /\ subcommand ctx1 = Some "commit" /\ args ctx1 = ["x"]
    /\ subcommand ctx2 = Some "commit|x" /\ args ctx2 = []
    /\ tokens ctx2 = Some ["git"; "commit|x"]
    /\ create_cache_key ctx1 = "git|commit|x"
    /\ create_cache_key ctx2 = "git|commit|x"
    /\ option_map fst (predict_rule_based 100 1 2 3 ctx2 (fresh_world None true))
       = Some []
    /\ predict_rule_based 100 1 2 3 ctx1 (fresh_world None true)
       = Some (["commit"; "-m"; "--message"; "--amend"; "--signoff"; "-a";
                "--all"], w1)
    /\ predict_rule_based 100 4 5 6 ctx2 w1
       = Some (["commit"; "-m"; "--message"; "--amend"; "--signoff"; "-a";
                "--all"], w2).
Proof.
  do 4 eexists. repeat (split; [reflexivity|]). reflexivity.
Qed.

End KeyCollision.
